(** * Certification core of the IC agent: hashing, hash trees, certificates, polling

    A shallow embedding of [packages/agent/src]: [request_id.ts]
    (representation-independent hashing), [certificate.ts] (hash-tree
    reconstruction, path lookup, certificate verification) and
    [polling/index.ts] (the request-status poller), followed by the
    properties proved about them. *)

From Stdlib Require Import ZArith NArith String Ascii List Bool Lia.
From Stdlib Require Import Permutation Sorted.
From Stdlib Require Import Strings.Byte.
Import ListNotations.

Set Implicit Arguments.

(** ** Bytes, strings and exceptions *)

(** An [ArrayBuffer] or [Uint8Array] is the list of its bytes. *)
Definition bytes := list byte.

(** The unsigned value of a byte, as the number a [Uint8Array] element reads. *)
Definition byte_val (b : byte) : Z := Z.of_N (Byte.to_N b).

(** [Uint8Array] stores a number modulo 256. *)
Definition byte_of_Z (n : Z) : byte :=
  match Byte.of_N (Z.to_N (n mod 256)) with
  | Some b => b
  | None => x00
  end.

(** A JavaScript string is kept as its UTF-8 encoding, the convention of
    [String.string]; [new TextEncoder().encode] then reads the bytes off. *)
Definition TextEncoder_encode (s : string) : bytes := list_byte_of_string s.

(** [s.length] counts UTF-16 code units: one per UTF-8 sequence, two for a
    four-byte sequence (a surrogate pair). Continuation bytes are 10xxxxxx and
    the leaders of four-byte sequences are 11110xxx. *)
Definition utf16_units (b : byte) : nat :=
  let v := byte_val b in
  if (128 <=? v)%Z && (v <? 192)%Z then 0
  else if (240 <=? v)%Z then 2
  else 1.

Definition js_length (s : string) : nat :=
  list_sum (map utf16_units (TextEncoder_encode s)).

(** The byte order mark that [TextDecoder] drops from the front of its input. *)
Definition BOM : bytes := [xef; xbb; xbf].

(** [new TextDecoder().decode]: the text of the bytes, a leading byte order
    mark dropped. Ill-formed sequences are kept as they are (the decoder
    would put U+FFFD in their place), so the result is ASCII exactly when
    the decoder's is. *)
Definition TextDecoder_decode (b : bytes) : string :=
  match b with
  | b0 :: b1 :: b2 :: rest =>
      if (Byte.eqb b0 xef && Byte.eqb b1 xbb && Byte.eqb b2 xbf)%bool
      then string_of_list_byte rest
      else string_of_list_byte b
  | _ => string_of_list_byte b
  end.

(** Outcome of code that may [throw]. *)
Inductive Result (E A : Type) : Type :=
| Ok (a : A)
| Throw (e : E).
Arguments Ok {E A} a.
Arguments Throw {E A} e.

Definition bindR {E A B} (r : Result E A) (k : A -> Result E B) : Result E B :=
  match r with
  | Ok a => k a
  | Throw e => Throw e
  end.

Declare Scope result_scope.
Delimit Scope result_scope with result.
Notation "x <- r ;; k" := (bindR r (fun x => k))
  (at level 61, r at next level, right associativity) : result_scope.

(** [array.map(f)] for an [f] that may throw: left to right, the first
    exception wins. *)
Definition mapR {E A B} (f : A -> Result E B) : list A -> Result E (list B) :=
  fix go (l : list A) : Result E (list B) :=
    match l with
    | [] => Ok []
    | x :: r =>
        match f x with
        | Throw e => Throw e
        | Ok y => match go r with
                  | Throw e => Throw e
                  | Ok ys => Ok (y :: ys)
                  end
        end
    end.

(** ** [./utils/buffer] *)

Module Buffer.

(** Modelled from the spec: [compare] of [./utils/buffer], which is not
    among the sources. The spec lists the byte utilities as "fixed-width
    byte comparison, concatenation, hex codec" and has map entries sorted
    "in unsigned byte-lex order": the result is the difference at the first
    position where the buffers differ, and the difference of the lengths
    when one is a prefix of the other. *)
Fixpoint compare (b1 b2 : bytes) : Z :=
  match b1, b2 with
  | x :: r1, y :: r2 =>
      if (byte_val x =? byte_val y)%Z then compare r1 r2
      else (byte_val x - byte_val y)%Z
  | _, _ => (Z.of_nat (length b1) - Z.of_nat (length b2))%Z
  end.

(** Modelled from the spec: [bufEquals] of [./utils/buffer], equality of
    the two byte sequences. *)
Definition bufEquals (b1 b2 : bytes) : bool := (compare b1 b2 =? 0)%Z.

(** Modelled from the spec: [concat] of [./utils/buffer], the buffers one
    after the other. *)
Definition concat (buffers : list bytes) : bytes := List.concat buffers.

Definition hex_digit (c : ascii) : option N :=
  let n := N_of_ascii c in
  if (48 <=? n)%N && (n <=? 57)%N then Some (n - 48)%N
  else if (97 <=? n)%N && (n <=? 102)%N then Some (n - 87)%N
  else if (65 <=? n)%N && (n <=? 70)%N then Some (n - 55)%N
  else None.

(** Modelled from the spec: [fromHex] of [./utils/buffer] (the "hex
    codec"), two digits to a byte. *)
Fixpoint fromHex (hex : string) : bytes :=
  match hex with
  | String h (String l rest) =>
      match hex_digit h, hex_digit l with
      | Some a, Some b => byte_of_Z (Z.of_N (16 * a + b)) :: fromHex rest
      | _, _ => x00 :: fromHex rest
      end
  | _ => []
  end.

End Buffer.

(** ** Hash trees ([certificate.ts]) *)

(** [HashTree]: the tuple whose first component is the [NodeType]. *)
Inductive HashTree : Type :=
| Empty
| Fork (t1 t2 : HashTree)
| Labeled (label : bytes) (sub : HashTree)
| Leaf (contents : bytes)
| Pruned (digest : bytes).

(** A path segment is [ArrayBuffer | string]. *)
Inductive PathSegment : Type :=
| SegBuf (b : bytes)
| SegStr (s : string).

Inductive LookupValue : Type :=
| VBuffer (b : bytes)
| VTree (t : HashTree).

(** [LookupResult], by its [status] field. *)
Inductive LookupResult : Type :=
| Found (value : LookupValue)
| Absent
| Unknown.

(** [LabelLookupResult]: [find_label] only ever finds a subtree. *)
Inductive LabelLookupResult : Type :=
| LFound (value : HashTree)
| LAbsent
| LUnknown
| LGreater
| LLess.

(** [a8[i] > b8[i]] on typed-array reads, an index past the end reading
    [undefined]: a comparison with [undefined] is false. *)
Definition js_gt (x y : option byte) : bool :=
  match x, y with
  | Some a, Some b => (byte_val b <? byte_val a)%Z
  | _, _ => false
  end.

(** The loop returns [true] at the first index whose byte of [a] exceeds
    the byte of [b] there, and [false] when there is none. *)
Definition isBufferGreaterThan (a b : bytes) : bool :=
  existsb (fun i => js_gt (nth_error a i) (nth_error b i)) (seq 0 (length a)).

Fixpoint find_label (label : bytes) (tree : HashTree) : LabelLookupResult :=
  match tree with
  | Labeled l sub =>
      if isBufferGreaterThan label l then LGreater
      else if Buffer.bufEquals label l then LFound sub
      else LLess
  | Fork t1 t2 =>
      let leftLookupResult := find_label label t1 in
      match leftLookupResult with
      | LGreater =>
          let rightLookupResult := find_label label t2 in
          match rightLookupResult with
          | LLess => LAbsent
          | _ => rightLookupResult
          end
      | LUnknown =>
          let rightLookupResult := find_label label t2 in
          match rightLookupResult with
          | LLess => LUnknown
          | _ => rightLookupResult
          end
      | _ => leftLookupResult
      end
  | Pruned _ => LUnknown
  | _ => LAbsent
  end.

Definition segment_label (seg : PathSegment) : bytes :=
  match seg with
  | SegStr s => TextEncoder_encode s
  | SegBuf b => b
  end.

(** [lookup_path]. At a leaf the source returns the leaf's [ArrayBuffer],
    and for a leaf held as a [Uint8Array] the [.buffer] of the view: the
    bytes of the leaf when the view covers its buffer, which is the case
    here. A view on a part of a larger buffer, for which the source returns
    the whole of that buffer, is not in this type of trees. *)
Fixpoint lookup_path (path : list PathSegment) (tree : HashTree) : LookupResult :=
  match path with
  | [] =>
      match tree with
      | Leaf contents => Found (VBuffer contents)
      | _ => Found (VTree tree)
      end
  | seg :: rest =>
      let label := segment_label seg in
      let lookupResult := find_label label tree in
      match lookupResult with
      | LFound value => lookup_path rest value
      | LGreater | LLess => Absent
      | LAbsent => Absent
      | LUnknown => Unknown
      end
  end.

(** [lookupResultToBuffer]: [undefined] unless a buffer was found. *)
Definition lookupResultToBuffer (result : LookupResult) : option bytes :=
  match result with
  | Found (VBuffer b) => Some b
  | _ => None
  end.

Fixpoint flatten_forks (t : HashTree) : list HashTree :=
  match t with
  | Empty => []
  | Fork t1 t2 => flatten_forks t1 ++ flatten_forks t2
  | _ => [t]
  end.

(** ** SHA-256 (FIPS 180-4)

    [@noble/hashes] is a collaborator of the repository. The development is
    stated for any hash function (the class [Externals] below); this model of
    the real one instantiates it, so that the examples are computed on the
    digests the program computes. *)

Module Sha256.
Local Open Scope N_scope.

Definition w32 (x : N) : N := x mod 4294967296.
Definition add32 (x y : N) : N := w32 (x + y).
Definition rotr (n x : N) : N := N.lor (N.shiftr x n) (w32 (N.shiftl x (32 - n))).
Definition shr (n x : N) : N := N.shiftr x n.
Definition not32 (x : N) : N := N.lxor x 4294967295.

Definition Ch (x y z : N) : N := N.lxor (N.land x y) (N.land (not32 x) z).
Definition Maj (x y z : N) : N :=
  N.lxor (N.lxor (N.land x y) (N.land x z)) (N.land y z).
Definition Sigma0 (x : N) : N := N.lxor (N.lxor (rotr 2 x) (rotr 13 x)) (rotr 22 x).
Definition Sigma1 (x : N) : N := N.lxor (N.lxor (rotr 6 x) (rotr 11 x)) (rotr 25 x).
Definition sigma0 (x : N) : N := N.lxor (N.lxor (rotr 7 x) (rotr 18 x)) (shr 3 x).
Definition sigma1 (x : N) : N := N.lxor (N.lxor (rotr 17 x) (rotr 19 x)) (shr 10 x).

(** The first sixty-four primes. *)
Definition primes : list N :=
  [ 2; 3; 5; 7; 11; 13; 17; 19; 23; 29; 31; 37; 41; 43; 47; 53;
    59; 61; 67; 71; 73; 79; 83; 89; 97; 101; 103; 107; 109; 113; 127; 131;
    137; 139; 149; 151; 157; 163; 167; 173; 179; 181; 191; 193; 197; 199; 211; 223;
    227; 229; 233; 239; 241; 251; 257; 263; 269; 271; 277; 281; 283; 293; 307; 311 ].

(** The largest [r] below [2 ^ bits] whose cube is at most [x], found bit
    by bit from the top. *)
Fixpoint cube_root (bits : nat) (x r : N) : N :=
  match bits with
  | O => r
  | S b =>
      let c := r + 2 ^ N.of_nat b in
      cube_root b x (if c * c * c <=? x then c else r)
  end.

(** The round constants: the first thirty-two bits of the fractional
    parts of the cube roots of the primes. *)
Definition K : list N :=
  Eval vm_compute in map (fun p => w32 (cube_root 36 (p * 2 ^ 96) 0)) primes.

(** The initial hash value: the same of the square roots of the first
    eight primes. *)
Definition H0 : list N :=
  Eval vm_compute in map (fun p => w32 (N.sqrt (p * 2 ^ 64))) (firstn 8 primes).

(** Big-endian words of a block, and bytes of a word. *)
Fixpoint words_of (b : bytes) : list N :=
  match b with
  | b0 :: b1 :: b2 :: b3 :: rest =>
      (Byte.to_N b0 * 16777216 + Byte.to_N b1 * 65536 + Byte.to_N b2 * 256 + Byte.to_N b3)
        :: words_of rest
  | _ => []
  end.

Definition byte_of_N (n : N) : byte :=
  match Byte.of_N (n mod 256) with
  | Some b => b
  | None => x00
  end.

Definition bytes_of_word (w : N) : bytes :=
  [ byte_of_N (N.shiftr w 24); byte_of_N (N.shiftr w 16); byte_of_N (N.shiftr w 8); byte_of_N w ].

(** The message schedule, most recent word first: [rw] holds
    W(t-1), W(t-2), ... and the next word is
    sigma1 W(t-2) + W(t-7) + sigma0 W(t-15) + W(t-16). *)
Fixpoint schedule (n : nat) (rw : list N) : list N :=
  match n with
  | O => rw
  | S n' =>
      let w := add32 (add32 (sigma1 (nth 1 rw 0)) (nth 6 rw 0))
                     (add32 (sigma0 (nth 14 rw 0)) (nth 15 rw 0)) in
      schedule n' (w :: rw)
  end.

Record Regs : Type := mkRegs { ra : N; rb : N; rc : N; rd : N; re : N; rf : N; rg : N; rh : N }.

Definition round (s : Regs) (kw : N * N) : Regs :=
  let t1 := add32 (add32 (add32 (rh s) (Sigma1 (re s))) (Ch (re s) (rf s) (rg s)))
                  (add32 (fst kw) (snd kw)) in
  let t2 := add32 (Sigma0 (ra s)) (Maj (ra s) (rb s) (rc s)) in
  mkRegs (add32 t1 t2) (ra s) (rb s) (rc s) (add32 (rd s) t1) (re s) (rf s) (rg s).

Definition regs_of (h : list N) : Regs :=
  mkRegs (nth 0 h 0) (nth 1 h 0) (nth 2 h 0) (nth 3 h 0)
         (nth 4 h 0) (nth 5 h 0) (nth 6 h 0) (nth 7 h 0).

Definition compress (h : list N) (block : bytes) : list N :=
  let w := rev (schedule 48 (rev (words_of block))) in
  let s0 := regs_of h in
  let s := fold_left round (combine K w) s0 in
  [ add32 (ra s0) (ra s); add32 (rb s0) (rb s); add32 (rc s0) (rc s); add32 (rd s0) (rd s);
    add32 (re s0) (re s); add32 (rf s0) (rf s); add32 (rg s0) (rg s); add32 (rh s0) (rh s) ].

(** The message, then 0x80, zeros up to 56 modulo 64, and the bit length
    on eight bytes. *)
Definition pad (msg : bytes) : bytes :=
  let len := N.of_nat (List.length msg) in
  let zeros := N.to_nat ((119 - len mod 64) mod 64) in
  let bits := len * 8 in
  msg ++ [x80] ++ repeat x00 zeros
      ++ bytes_of_word (N.shiftr bits 32) ++ bytes_of_word (w32 bits).

Fixpoint blocks (n : nat) (h : list N) (data : bytes) : list N :=
  match n with
  | O => h
  | S n' => blocks n' (compress h (firstn 64 data)) (skipn 64 data)
  end.

Definition sha256 (msg : bytes) : bytes :=
  let p := pad msg in
  List.concat (map bytes_of_word (blocks (Nat.div (List.length p) 64) H0 p)).

End Sha256.

(** ** LEB128 ([@dfinity/candid] and [./utils/leb]) *)

Module Leb.
Local Open Scope Z_scope.

Fixpoint leb_digits (fuel : nat) (n : Z) : bytes :=
  match fuel with
  | O => []
  | S fuel' =>
      if n <? 128 then [byte_of_Z n]
      else byte_of_Z (n mod 128 + 128) :: leb_digits fuel' (n / 128)
  end.

(** Modelled from the spec: [lebEncode] of [@dfinity/candid], the
    "unsigned minimal LEB128" of a non-negative integer; [None] when the
    library throws (a negative value). *)
Definition lebEncode (n : Z) : option bytes :=
  if n <? 0 then None
  else Some (leb_digits (S (Z.to_nat (Z.log2 n))) n).

(** The unsigned LEB128 number at the front of a buffer; [None] when the
    buffer ends inside it. *)
Fixpoint lebDecode (b : bytes) : option Z :=
  match b with
  | [] => None
  | x :: rest =>
      let v := byte_val x in
      if v <? 128 then Some v
      else match lebDecode rest with
           | Some hi => Some (v - 128 + 128 * hi)
           | None => None
           end
  end.

End Leb.

(** ** JavaScript values ([request_id.ts]) *)

(** A [number]: [lebEncode] turns it into a [BigInt], which raises on
    anything but an integer (a fraction, NaN, an infinity). *)
Inductive JsNum : Type :=
| Integral (n : Z)
| NonIntegral.

(** What [hashValue] can observe of an object. The tests it makes are not
    exclusive: an array may carry [_isPrincipal], a principal may have a
    [toHash] method, and so on, which is why their order matters. *)
Record ObjectView (V : Type) : Type := mkObject {
  (** [value instanceof borc.Tagged]: its [value] property. *)
  tagged_value : option V;
  (** [value instanceof ArrayBuffer || ArrayBuffer.isView(value)]: the bytes
      [new Uint8Array(value)] holds. *)
  buffer_bytes : option bytes;
  (** [Array.isArray(value)]: the elements. *)
  array_elements : option (list V);
  (** [value._isPrincipal] is truthy: what [toUint8Array()] returns. *)
  principal_bytes : option bytes;
  (** [typeof value.toHash === 'function']: what [toHash()] returns. *)
  toHash_result : option V;
  (** [Object.entries(value)], in the order JavaScript enumerates them. *)
  own_entries : list (string * V)
}.

(** [unknown]: a value of any JavaScript type. *)
#[warnings="-register-all"]
Inductive JsValue : Type :=
| JsUndefined
| JsNull
| JsBoolean (b : bool)
| JsNumber (n : JsNum)
| JsBigInt (n : Z)
| JsString (s : string)
| JsSymbol (description : string)
| JsFunction
| JsObject (o : ObjectView JsValue).

(** A plain object literal with the given entries. *)
Definition record (entries : list (string * JsValue)) : JsValue :=
  JsObject (mkObject None None None None None entries).

(** ** Exceptions *)

Inductive VerificationFailure : Type :=
| NestedDelegation        (* 'Delegation certificates cannot be nested' *)
| CanisterNotInRange (canisterId subnet_id : bytes)
| MissingTime             (* 'Certificate does not contain a time' *)
| CertificateTooOld (certTime now : Z)
| CertificateTooNew (certTime now : Z)
| SignatureFailed.        (* 'Signature verification failed' *)

Inductive MalformedDER : Type :=
| WrongLength (expectedLength : nat)
| WrongPrefix (prefix : bytes).

(** Everything the embedded code throws, by throw site. *)
Inductive Exn : Type :=
(* request_id.ts *)
| UnsupportedType (value : JsValue)  (* 'Attempt to hash a value of unsupported type', [value] attached *)
| SymbolToString                      (* TypeError: a symbol in a template literal *)
| EntriesOfNull                       (* TypeError: [Object.entries(null)] *)
| LebEncodeFailed                     (* thrown inside [lebEncode] *)
(* certificate.ts *)
| CertificateVerificationError (reason : VerificationFailure)
| DERTypeError (why : MalformedDER)   (* TypeError of [extractDER] *)
| NoSubnetKey (subnet_id : bytes)     (* 'Could not find subnet key for subnet' *)
| NoCanisterRanges (subnetId : bytes) (* 'Could not find canister ranges for subnet' *)
| CborDecodeFailed                    (* thrown inside [cbor.decode] *)
| LebDecodeFailed                     (* thrown inside [decodeTime] *)
(* polling/index.ts *)
| RootKeyNotInitialized               (* 'Agent root key not initialized before polling' *)
| CallRejected (requestId : bytes) (rejectCode : option byte) (rejectMessage : string)
| CallDoneWithoutReply (requestId : bytes)
| Unreachable                         (* 'unreachable' *)
| External (tag : nat).               (* thrown by the agent or by the strategy *)

(** ** Certificates: data *)

Record Delegation : Type := mkDelegation {
  subnet_id : bytes;
  certificate : bytes
}.

Record Cert : Type := mkCert {
  tree : HashTree;
  signature : bytes;
  delegation : option Delegation
}.

(** [VerifyFunc]: the answer, or the exception it throws. *)
Definition VerifyFunc : Type := bytes -> bytes -> bytes -> Result Exn bool.

(** A [Date], as [verify] reads it through [getTime()]: its time value, a
    whole number of milliseconds since the epoch (of at most 8.64e15 in
    absolute value, so an integer that a number holds exactly), or an
    Invalid Date, whose [getTime()] is [NaN]. *)
Inductive JsDate : Type :=
| TimeValue (ms : Z)
| InvalidDate.

(** ** External collaborators *)

(** The primitives the code imports from other packages or reads from the
    platform. Nothing is assumed of them. *)
Class Externals : Type := {
  (** [sha256] of [@noble/hashes]. *)
  sha256 : bytes -> bytes;
  (** [cbor.decode] on the bytes of a certificate. *)
  cbor_decode_cert : bytes -> Result Exn Cert;
  (** [cbor.decode] on the bytes of a list of canister ranges. *)
  cbor_decode_ranges : bytes -> Result Exn (list (bytes * bytes));
  (** [bls.blsVerify], the default verification function. *)
  bls_blsVerify : VerifyFunc;
  (** [decodeTime] of [./utils/leb], which is not among the sources: the
      [Date] it makes of the buffer at [['time']], or the exception it
      throws. *)
  decodeTime : bytes -> Result Exn JsDate;
  (** What the k-th call of [Date.now()] returns, in milliseconds. *)
  Date_now_at : nat -> Z
}.

(** ** Representation-independent hashing ([request_id.ts]) *)

(** [array.filter(keep).map(f)] in one pass, [f] possibly throwing. *)
Definition filter_mapR {E A B} (keep : A -> bool) (f : A -> Result E B)
  : list A -> Result E (list B) :=
  fix go (l : list A) : Result E (list B) :=
    match l with
    | [] => Ok []
    | x :: r =>
        if keep x then
          match f x with
          | Throw e => Throw e
          | Ok y => match go r with
                    | Throw e => Throw e
                    | Ok ys => Ok (y :: ys)
                    end
          end
        else go r
    end.

(** [Array.prototype.sort(compareFn)]: a stable sort, an element going
    before another when [compareFn] is not positive on them in their
    original order. *)
Fixpoint sort_insert {A} (compareFn : A -> A -> Z) (x : A) (l : list A) : list A :=
  match l with
  | [] => [x]
  | y :: r =>
      if (compareFn x y <=? 0)%Z then x :: y :: r
      else y :: sort_insert compareFn x r
  end.

Definition Array_sort {A} (compareFn : A -> A -> Z) (l : list A) : list A :=
  fold_right (sort_insert compareFn) [] l.

(** A facet of a value, when the value is an object: the tests of
    [hashValue] on objects ([instanceof], [Array.isArray], a property that is
    there) fail on every primitive value. *)
Definition facet {A : Type} (f : ObjectView JsValue -> option A) (v : JsValue) : option A :=
  match v with
  | JsObject o => f o
  | _ => None
  end.

Definition is_defined (v : JsValue) : bool :=
  match v with
  | JsUndefined => false
  | _ => true
  end.

Section Hashing.
Context {ext : Externals}.
Local Open Scope result_scope.

Definition hash (data : bytes) : bytes := sha256 data.

Definition hashString (value : string) : bytes :=
  hash (TextEncoder_encode value).

Definition lebEncode_number (value : JsNum) : Result Exn bytes :=
  match value with
  | Integral n =>
      match Leb.lebEncode n with
      | Some b => Ok b
      | None => Throw LebEncodeFailed
      end
  | NonIntegral => Throw LebEncodeFailed
  end.

Definition lebEncode_bigint (value : Z) : Result Exn bytes :=
  lebEncode_number (Integral value).

(** The body of [hashOfMap], over the entries of the object and with
    [hashValue] as a parameter, the two functions being mutually
    recursive. *)
Definition hashOfMap_body (hashValue : JsValue -> Result Exn bytes)
           (entries : list (string * JsValue)) : Result Exn bytes :=
  hashed <- filter_mapR (fun kv => is_defined (snd kv))
              (fun kv =>
                 let hashedKey := hashString (fst kv) in
                 hashedValue <- hashValue (snd kv) ;;
                 Ok (hashedKey, hashedValue))
              entries ;;
  let traversed := hashed in
  let sorted := Array_sort (fun a b => Buffer.compare (fst a) (fst b)) traversed in
  let concatenated :=
    Buffer.concat (map (fun x => Buffer.concat [fst x; snd x]) sorted) in
  let result := hash concatenated in
  Ok result.

(** What the final [throw] of [hashValue] throws: the error with the value
    attached; but its message is built with a template literal, and that
    throws a [TypeError] of its own on a symbol. *)
Definition unsupported (value : JsValue) : Exn :=
  match value with
  | JsSymbol _ => SymbolToString
  | _ => UnsupportedType value
  end.

(** [hashValue]. Recursion is on the structure of the value, so the
    tests on an object come first here, the facets in the order of the
    source; a primitive value passes at most one test. [hashValue_eq] below
    gives the function as the chain of tests that the source is. *)
Fixpoint hashValue (value : JsValue) : Result Exn bytes :=
  match value with
  | JsObject o =>
      match tagged_value o with
      | Some inner => hashValue inner
      | None =>
      match buffer_bytes o with
      | Some b => Ok (hash b)
      | None =>
      match array_elements o with
      | Some elements =>
          vals <- mapR hashValue elements ;;
          Ok (hash (Buffer.concat vals))
      | None =>
      match principal_bytes o with
      | Some p => Ok (hash p)
      | None =>
      match toHash_result o with
      | Some projection => hashValue projection
      | None => hashOfMap_body hashValue (own_entries o)
      end end end end end
  | JsString s => Ok (hashString s)
  | JsNumber n => b <- lebEncode_number n ;; Ok (hash b)
  | JsNull => Throw EntriesOfNull
  | JsBigInt n => b <- lebEncode_bigint n ;; Ok (hash b)
  | _ => Throw (unsupported value)
  end.

(** [hashOfMap], on the entries of its argument. *)
Definition hashOfMap (map : list (string * JsValue)) : Result Exn bytes :=
  hashOfMap_body hashValue map.

Definition requestIdOf (request : list (string * JsValue)) : Result Exn bytes :=
  hashOfMap request.

End Hashing.

(** ** Hash-tree reconstruction ([certificate.ts]) *)

Section Reconstruct.
Context {ext : Externals}.

Definition domain_sep (s : string) : bytes :=
  let len := [byte_of_Z (Z.of_nat (js_length s))] in
  let str := TextEncoder_encode s in
  Buffer.concat [len; str].

Fixpoint reconstruct (t : HashTree) : bytes :=
  match t with
  | Empty => hash (domain_sep "ic-hashtree-empty")
  | Pruned digest => digest
  | Leaf contents => hash (Buffer.concat [domain_sep "ic-hashtree-leaf"; contents])
  | Labeled label sub =>
      hash (Buffer.concat [domain_sep "ic-hashtree-labeled"; label; reconstruct sub])
  | Fork t1 t2 =>
      hash (Buffer.concat [domain_sep "ic-hashtree-fork"; reconstruct t1; reconstruct t2])
  end.

End Reconstruct.

(** ** DER unwrapping ([certificate.ts]) *)

Definition DER_PREFIX : bytes :=
  Buffer.fromHex
    "308182301d060d2b0601040182dc7c0503010201060c2b0601040182dc7c05030201036100".

Definition KEY_LENGTH : nat := 96.

Definition extractDER (buf : bytes) : Result Exn bytes :=
  let expectedLength := List.length DER_PREFIX + KEY_LENGTH in
  if negb (List.length buf =? expectedLength) then
    Throw (DERTypeError (WrongLength expectedLength))
  else
    let prefix := firstn (List.length DER_PREFIX) buf in
    if negb (Buffer.bufEquals prefix DER_PREFIX) then
      Throw (DERTypeError (WrongPrefix prefix))
    else Ok (skipn (List.length DER_PREFIX) buf).

(** ** Principals ([@dfinity/principal]) *)

Module Principal.

(** A principal is its bytes ([toUint8Array], [fromUint8Array]). *)
Definition t : Type := bytes.

(** Modelled from the spec: the "byte-lex comparison (<=, >=)" of
    [@dfinity/principal]. *)
Definition ltEq (a b : t) : bool := (Buffer.compare a b <=? 0)%Z.
Definition gtEq (a b : t) : bool := (0 <=? Buffer.compare a b)%Z.

(** Modelled from the spec: [MANAGEMENT_CANISTER_ID] of [./agent] is "the
    reserved empty-byte principal (byte length 0), recognized by its
    canonical string form"; the test is
    [canisterId.toString() !== MANAGEMENT_CANISTER_ID]. *)
Definition is_management (p : t) : bool :=
  match p with
  | [] => true
  | _ => false
  end.

End Principal.

(** ** The world: clock, agent calls, and what was observed *)

(** A read-state request object, known by its identity. *)
Inductive Request : Type :=
| RequestObject (id : nat).

Inductive Event : Type :=
| CreatedRequest (r : Request)
| ReadState (canisterId : Principal.t) (request : option Request)
| Awaited (status : string).

Record World : Type := mkWorld {
  ticks : nat;     (* calls of [Date.now()] so far *)
  creates : nat;   (* calls of [agent.createReadStateRequest] so far *)
  reads : nat;     (* calls of [agent.readState] so far *)
  awaits : nat;    (* calls of the polling strategy so far *)
  trace : list Event  (* the calls on the agent and the strategy, oldest first *)
}.

(** How an asynchronous call stands: settled with a value, rejected with an
    exception, or not settled within the steps the model was given. *)
Inductive Outcome (A : Type) : Type :=
| Returned (a : A)
| Thrown (e : Exn)
| Pending.
Arguments Returned {A} a.
Arguments Thrown {A} e.
Arguments Pending {A}.

Definition M (A : Type) : Type := World -> Outcome A * World.

Definition ret {A} (a : A) : M A := fun w => (Returned a, w).
Definition throw {A} (e : Exn) : M A := fun w => (Thrown e, w).
Definition pending {A} : M A := fun w => (Pending, w).

Definition bindM {A B} (m : M A) (k : A -> M B) : M B :=
  fun w =>
    match m w with
    | (Returned a, w') => k a w'
    | (Thrown e, w') => (Thrown e, w')
    | (Pending, w') => (Pending, w')
    end.

Definition lift {A} (r : Result Exn A) : M A :=
  match r with
  | Ok a => ret a
  | Throw e => throw e
  end.

Declare Scope world_scope.
Delimit Scope world_scope with world.
Notation "x <- m ;; k" := (bindM m (fun x => k))
  (at level 61, m at next level, right associativity) : world_scope.
Notation "m ;; k" := (bindM m (fun _ => k))
  (at level 61, right associativity) : world_scope.

Definition log (e : Event) : M unit :=
  fun w => (Returned tt,
            mkWorld (ticks w) (creates w) (reads w) (awaits w) (trace w ++ [e])).

(** ** Certificates ([certificate.ts]) *)

(** [maxAgeInMinutes], a number: a whole number of minutes, [Infinity]
    (what [_checkDelegationAndGetKey] passes) or [NaN]. On whole minutes
    whose milliseconds are safe integers the arithmetic of [verify] is
    exact; a fraction of a minute, whose milliseconds are a rounded
    double, is left out. *)
Inductive MaxAge : Type :=
| Minutes (m : Z)
| Infinity
| NotANumber.

Record CreateCertificateOptions : Type := mkOptions {
  options_certificate : bytes;
  options_rootKey : bytes;
  options_canisterId : Principal.t;
  options_blsVerify : option VerifyFunc;
  options_maxAgeInMinutes : option MaxAge;
  options_disableTimeVerification : option bool
}.

Record Certificate : Type := mkCertificate {
  cert : Cert;
  _rootKey : bytes;
  _canisterId : Principal.t;
  _blsVerify : VerifyFunc;
  _maxAgeInMinutes : MaxAge;
  disableTimeVerification : bool
}.

Definition lookup (this : Certificate) (path : list PathSegment) : LookupResult :=
  lookup_path path (tree (cert this)).

Definition lookup_label (this : Certificate) (label : bytes) : LookupResult :=
  lookup this [SegBuf label].

(** The time checks of [verify], given what [Date.now()] returned, in
    milliseconds, and the decoded certificate time. They compare numbers:
    the [getTime()] of an Invalid Date is [NaN], which is neither below nor
    above anything, and nothing is below the [-Infinity] or the [NaN] that
    the earliest time is when the maximal age is [Infinity] or [NaN]. *)
Definition check_time (maxAgeInMinutes : MaxAge) (now : Z) (certTime : JsDate)
  : Result Exn unit :=
  match certTime with
  | InvalidDate => Ok tt
  | TimeValue getTime =>
      let FIVE_MINUTES_IN_MSEC := (5 * 60 * 1000)%Z in
      let fiveMinutesFromNow := (now + FIVE_MINUTES_IN_MSEC)%Z in
      let tooOld :=
        match maxAgeInMinutes with
        | Minutes m =>
            let MAX_AGE_IN_MSEC := (m * 60 * 1000)%Z in
            let earliestCertificateTime := (now - MAX_AGE_IN_MSEC)%Z in
            (getTime <? earliestCertificateTime)%Z
        | Infinity => false
        | NotANumber => false
        end in
      if tooOld then
        Throw (CertificateVerificationError (CertificateTooOld getTime now))
      else if (getTime >? fiveMinutesFromNow)%Z then
        Throw (CertificateVerificationError (CertificateTooNew getTime now))
      else Ok tt
  end.

Section Certificates.
Context {ext : Externals}.
Local Open Scope world_scope.

Definition Date_now : M Z :=
  fun w => (Returned (Date_now_at (ticks w)),
            mkWorld (S (ticks w)) (creates w) (reads w) (awaits w) (trace w)).

Definition createUnverified (options : CreateCertificateOptions)
  : Result Exn Certificate :=
  let blsVerify :=
    match options_blsVerify options with
    | Some f => f
    | None => bls_blsVerify
    end in
  match cbor_decode_cert (options_certificate options) with
  | Throw e => Throw e
  | Ok decoded =>
      Ok (mkCertificate decoded
            (options_rootKey options)
            (options_canisterId options)
            blsVerify
            (match options_maxAgeInMinutes options with
             | Some m => m
             | None => Minutes 5
             end)
            (match options_disableTimeVerification options with
             | Some b => b
             | None => false
             end))
  end.

Definition check_canister_ranges (canisterId subnetId : Principal.t) (tree : HashTree)
  : Result Exn bool :=
  let rangeLookup :=
    lookup_path [SegStr "subnet"; SegBuf subnetId; SegStr "canister_ranges"] tree in
  match rangeLookup with
  | Found (VBuffer value) =>
      match cbor_decode_ranges value with
      | Throw e => Throw e
      | Ok ranges =>
          Ok (existsb (fun r => Principal.ltEq (fst r) canisterId
                                && Principal.gtEq (snd r) canisterId) ranges)
      end
  | _ => Throw (NoCanisterRanges subnetId)
  end.

(** [_checkDelegationAndGetKey], with the [verify] it calls on the inner
    certificate as a parameter. *)
Definition _checkDelegationAndGetKey (verify : Certificate -> M unit)
           (this : Certificate) (d : option Delegation) : M bytes :=
  match d with
  | None => ret (_rootKey this)
  | Some d =>
      inner <- lift (createUnverified
                 (mkOptions (certificate d) (_rootKey this) (_canisterId this)
                            (Some (_blsVerify this)) (Some Infinity) None)) ;;
      match delegation (cert inner) with
      | Some _ => throw (CertificateVerificationError NestedDelegation)
      | None =>
          verify inner ;;
          (if negb (Principal.is_management (_canisterId this)) then
             canisterInRange <- lift (check_canister_ranges (_canisterId this)
                                        (subnet_id d) (tree (cert inner))) ;;
             if negb canisterInRange then
               throw (CertificateVerificationError
                        (CanisterNotInRange (_canisterId this) (subnet_id d)))
             else ret tt
           else ret tt) ;;
          let publicKeyLookup :=
            lookupResultToBuffer
              (lookup inner [SegStr "subnet"; SegBuf (subnet_id d); SegStr "public_key"]) in
          match publicKeyLookup with
          | None => throw (NoSubnetKey (subnet_id d))
          | Some key => ret key
          end
      end
  end.

(** The body of [verify], the key resolution it starts with passed in. *)
Definition verify_body (checkDelegationAndGetKey : M bytes) (this : Certificate)
  : M unit :=
  let rootHash := reconstruct (tree (cert this)) in
  derKey <- checkDelegationAndGetKey ;;
  let sig := signature (cert this) in
  key <- lift (extractDER derKey) ;;
  let msg := Buffer.concat [domain_sep "ic-state-root"; rootHash] in
  let lookupTime := lookupResultToBuffer (lookup this [SegStr "time"]) in
  match lookupTime with
  | None => throw (CertificateVerificationError MissingTime)
  | Some lookupTime =>
      (if negb (disableTimeVerification this) then
         now <- Date_now ;;
         certTime <- lift (decodeTime lookupTime) ;;
         lift (check_time (_maxAgeInMinutes this) now certTime)
       else ret tt) ;;
      let sigVer :=
        match _blsVerify this key sig msg with
        | Ok b => b
        | Throw _ => false
        end in
      if negb sigVer then throw (CertificateVerificationError SignatureFailed)
      else ret tt
  end.

(** [verify] and [_checkDelegationAndGetKey] call each other; [fuel]
    bounds the depth of the calls. *)
Fixpoint verify (fuel : nat) (this : Certificate) : M unit :=
  match fuel with
  | O => pending
  | S fuel' =>
      verify_body
        (_checkDelegationAndGetKey (verify fuel') this (delegation (cert this)))
        this
  end.

(** A certificate and the certificate of its delegation: two levels. *)
Definition Certificate_verify : Certificate -> M unit := verify 2.

Definition Certificate_create (options : CreateCertificateOptions) : M Certificate :=
  c <- lift (createUnverified options) ;;
  Certificate_verify c ;;
  ret c.

End Certificates.

(** ** Polling ([polling/index.ts]) *)

(** Modelled from the spec: the enum [RequestStatusResponseStatus] of
    [../agent], which is not among the sources; the spec names the statuses
    Received, Processing, Replied, Rejected, Done and Unknown and writes
    their texts in lower case ("processing", "replied", "rejected"). *)
Module RequestStatusResponseStatus.
Definition Received : string := "received".
Definition Processing : string := "processing".
Definition Replied : string := "replied".
Definition Rejected : string := "rejected".
Definition Unknown : string := "unknown".
Definition Done : string := "done".
End RequestStatusResponseStatus.

Definition Path : Type := list PathSegment.

(** The agent, as [pollForResponse] uses it. The k-th call of a method
    answers by the method's function at k. [createReadStateRequest] is an
    optional method; when the agent has it, it resolves to a request object
    (the spec: [createReadStateRequest({paths}) -> Request]). *)
Record Agent : Type := mkAgent {
  rootKey : option bytes;
  createReadStateRequest : option (nat -> list Path -> Result Exn Request);
  (** What [readState] resolves to is its [certificate] field. *)
  readState : nat -> Principal.t -> list Path -> option Request -> Result Exn bytes
}.

(** [PollStrategy]: the k-th await resolves or throws. *)
Definition PollStrategy : Type :=
  nat -> Principal.t -> bytes -> string -> Result Exn unit.

Section Polling.
Context {ext : Externals}.
Local Open Scope world_scope.

Definition call_createReadStateRequest
           (create : nat -> list Path -> Result Exn Request) (paths : list Path)
  : M Request :=
  fun w =>
    let w' := mkWorld (ticks w) (S (creates w)) (reads w) (awaits w) (trace w) in
    match create (creates w) paths with
    | Throw e => (Thrown e, w')
    | Ok r => (Returned r, snd (log (CreatedRequest r) w'))
    end.

Definition call_readState (agent : Agent) (canisterId : Principal.t)
           (paths : list Path) (request : option Request) : M bytes :=
  fun w =>
    let w' := mkWorld (ticks w) (creates w) (S (reads w)) (awaits w)
                      (trace w ++ [ReadState canisterId request]) in
    match readState agent (reads w) canisterId paths request with
    | Throw e => (Thrown e, w')
    | Ok certificate => (Returned certificate, w')
    end.

Definition call_strategy (strategy : PollStrategy) (canisterId : Principal.t)
           (requestId : bytes) (status : string) : M unit :=
  fun w =>
    let w' := mkWorld (ticks w) (creates w) (reads w) (S (awaits w))
                      (trace w ++ [Awaited status]) in
    match strategy (awaits w) canisterId requestId status with
    | Throw e => (Thrown e, w')
    | Ok _ => (Returned tt, w')
    end.

(** [pollForResponse]; [fuel] bounds the number of iterations (the
    recursive calls), one per read of the state. The strategy is the
    caller's: the default one of [./strategy] is not among the sources. *)
Fixpoint pollForResponse (fuel : nat) (agent : Agent) (canisterId : Principal.t)
         (requestId : bytes) (strategy : PollStrategy) (request : option Request)
         (blsVerify : option VerifyFunc) : M (Certificate * option bytes) :=
  match fuel with
  | O => pending
  | S fuel' =>
      let path := [SegBuf (TextEncoder_encode "request_status"); SegBuf requestId] in
      currentRequest <-
        match request with
        | Some r => ret (Some r)
        | None =>
            match createReadStateRequest agent with
            | Some create =>
                r <- call_createReadStateRequest create [path] ;; ret (Some r)
            | None => ret None
            end
        end ;;
      certificate <- call_readState agent canisterId [path] currentRequest ;;
      match rootKey agent with
      | None => throw RootKeyNotInitialized
      | Some agent_rootKey =>
          cert <- Certificate_create
                    (mkOptions certificate agent_rootKey canisterId blsVerify None None) ;;
          let maybeBuf :=
            lookupResultToBuffer
              (lookup cert (path ++ [SegBuf (TextEncoder_encode "status")])) in
          let status :=
            match maybeBuf with
            | None => RequestStatusResponseStatus.Unknown
            | Some buf => TextDecoder_decode buf
            end in
          if String.eqb status RequestStatusResponseStatus.Replied then
            ret (cert, lookupResultToBuffer (lookup cert (path ++ [SegStr "reply"])))
          else if String.eqb status RequestStatusResponseStatus.Received
                  || String.eqb status RequestStatusResponseStatus.Unknown
                  || String.eqb status RequestStatusResponseStatus.Processing then
            call_strategy strategy canisterId requestId status ;;
            pollForResponse fuel' agent canisterId requestId strategy
                            currentRequest blsVerify
          else if String.eqb status RequestStatusResponseStatus.Rejected then
            let rejectCode :=
              match lookupResultToBuffer (lookup cert (path ++ [SegStr "reject_code"])) with
              | Some buf => hd_error buf
              | None => None
              end in
            let rejectMessage :=
              match lookupResultToBuffer (lookup cert (path ++ [SegStr "reject_message"])) with
              | Some buf => TextDecoder_decode buf
              | None => EmptyString
              end in
            throw (CallRejected requestId rejectCode rejectMessage)
          else if String.eqb status RequestStatusResponseStatus.Done then
            throw (CallDoneWithoutReply requestId)
          else throw Unreachable
      end
  end.

End Polling.

(** ** A concrete world

    The collaborators made concrete, for the examples: the real SHA-256, a
    signature check that accepts, a clock that stands at [now], a codec
    that reads the first byte of its input as an index into a table of
    certificates, and a decoding of times that reads the LEB128 number. *)

Module Concrete.

Definition now : Z := 1700000000000.

Definition decode_from (table : list Cert) (b : bytes) : Result Exn Cert :=
  match b with
  | k :: _ =>
      match nth_error table (N.to_nat (Byte.to_N k)) with
      | Some c => Ok c
      | None => Throw CborDecodeFailed
      end
  | [] => Throw CborDecodeFailed
  end.

(** Modelled from the spec: [decodeTime] of [./utils/leb], which is not
    among the sources, as far as the specification tells: the buffer is "an
    unsigned LEB128 nanosecond timestamp". How the count of nanoseconds
    becomes the time value of the [Date] is in neither the specification
    nor the sources: it is the parameter [toDate]. *)
Definition decodeTime_by (toDate : Z -> JsDate) (buf : bytes) : Result Exn JsDate :=
  match Leb.lebDecode buf with
  | Some ns => Ok (toDate ns)
  | None => Throw LebDecodeFailed
  end.

(** The reading of the examples, whose times are whole milliseconds: the
    number of whole milliseconds in the nanoseconds. *)
Definition whole_milliseconds (ns : Z) : JsDate := TimeValue (ns / 1000000).

Definition externals (table : list Cert) : Externals :=
  {| sha256 := Sha256.sha256;
     cbor_decode_cert := decode_from table;
     cbor_decode_ranges := fun _ => Ok [];
     bls_blsVerify := fun _ _ _ => Ok true;
     decodeTime := decodeTime_by whole_milliseconds;
     Date_now_at := fun _ => now |}.

(** The same collaborators for another reading of nanoseconds and a clock
    that stands at [clock]. *)
Definition externals_with (toDate : Z -> JsDate) (clock : Z) : Externals :=
  {| sha256 := Sha256.sha256;
     cbor_decode_cert := decode_from [];
     cbor_decode_ranges := fun _ => Ok [];
     bls_blsVerify := fun _ _ _ => Ok true;
     decodeTime := decodeTime_by toDate;
     Date_now_at := fun _ => clock |}.

Definition world0 : World := mkWorld 0 0 0 0 [].

(** A well-formed DER-wrapped key: the prefix and 96 bytes. *)
Definition rootKey : bytes := DER_PREFIX ++ repeat x2a 96.

(** [n] nanoseconds as the certificate carries them. *)
Definition time_leaf (ns : Z) : HashTree :=
  match Leb.lebEncode ns with
  | Some b => Labeled (TextEncoder_encode "time") (Leaf b)
  | None => Empty
  end.

End Concrete.

(** * Notions used in the statements *)

(** ** Hash trees and keys *)

(** The domain separator as the specification words it: the length of the
    tag on one byte, then the UTF-8 bytes of the tag. *)
Definition DS_spec (s : string) : bytes :=
  byte_of_Z (Z.of_nat (List.length (TextEncoder_encode s))) :: TextEncoder_encode s.

(** The prefix, byte by byte. *)
Definition DER_PREFIX_bytes : bytes :=
  [ x30; x81; x82; x30; x1d; x06; x0d; x2b; x06; x01; x04; x01; x82; xdc; x7c;
    x05; x03; x01; x02; x01; x06; x0c; x2b; x06; x01; x04; x01; x82; xdc; x7c;
    x05; x03; x02; x01; x03; x61; x00 ].

(** ** Sorting and hashing *)

(** [x] may stand before [y] in an array sorted by [compareFn]. *)
Definition before {A : Type} (compareFn : A -> A -> Z) (x y : A) : Prop :=
  (compareFn x y <= 0)%Z.

Section HashOfMapNotions.
Context {ext : Externals}.

(** One entry of the map, hashed: [H(key)] and [H(value)]. *)
Definition hashed_entry (kv : string * JsValue) : Result Exn (bytes * bytes) :=
  bindR (hashValue (snd kv)) (fun hashedValue => Ok (hashString (fst kv), hashedValue)).

Definition defined_entries (map : list (string * JsValue)) : list (string * JsValue) :=
  filter (fun kv => is_defined (snd kv)) map.

Definition by_hashed_key (a b : bytes * bytes) : Prop :=
  (Buffer.compare (fst a) (fst b) <= 0)%Z.

End HashOfMapNotions.

(** The request of the specification's first scenario, and the same request
    built in another order with an unset [nonce]. *)
Definition golden_request : list (string * JsValue) :=
  [ ("request_type", JsString "call");
    ("canister_id",
     JsObject (mkObject None None None (Some [x00; x00; x00; x00; x00; x00; x04; xd2]) None
                        [("_isPrincipal", JsBoolean true)]));
    ("method_name", JsString "hello");
    ("arg", JsObject (mkObject None (Some [x44; x49; x44; x4c]) None None None [])) ]%string.

Definition golden_request_reordered : list (string * JsValue) :=
  [ nth 3 golden_request ("", JsUndefined);
    ("nonce", JsUndefined);
    nth 2 golden_request ("", JsUndefined);
    nth 0 golden_request ("", JsUndefined);
    nth 1 golden_request ("", JsUndefined) ]%string.

(** ** The tests of [hashValue] *)

Definition is_some {A : Type} (o : option A) : bool :=
  match o with
  | Some _ => true
  | None => false
  end.

(** The tests in the order the specification lists them: tagged wrapper,
    text, number, byte string or view, sequence, principal, hashable
    projection, mapping ([typeof value === 'object'], which [null] passes
    too), big integer. *)
Definition detection_tests : list (JsValue -> bool) :=
  [ fun v => is_some (facet (@tagged_value _) v);
    fun v => match v with JsString _ => true | _ => false end;
    fun v => match v with JsNumber _ => true | _ => false end;
    fun v => is_some (facet (@buffer_bytes _) v);
    fun v => is_some (facet (@array_elements _) v);
    fun v => is_some (facet (@principal_bytes _) v);
    fun v => is_some (facet (@toHash_result _) v);
    fun v => match v with JsObject _ | JsNull => true | _ => false end;
    fun v => match v with JsBigInt _ => true | _ => false end ].

Definition matches_none (v : JsValue) : bool :=
  forallb (fun test => negb (test v)) detection_tests.

(** ** Calls in the world: what they leave alone, and that they settle *)

(** A computation that touches the clock at most: the calls on the agent
    and on the strategy, and their trace, stay as they were. *)
Definition same_calls (w w' : World) : Prop :=
  creates w' = creates w /\ reads w' = reads w /\ awaits w' = awaits w /\
  trace w' = trace w.

Definition quiet {A : Type} (m : M A) : Prop := forall w, same_calls w (snd (m w)).

(** A computation that settles: it returns or throws. *)
Definition settles {A : Type} (m : M A) : Prop := forall w, fst (m w) <> Pending.

(** ** Certificates of the examples *)

(** Certificates for the examples. [cert_with] puts a tree under the
    well-formed root key, with a signature check that accepts. *)
Definition cert_with (t : HashTree) (d : option Delegation) (maxAge : MaxAge)
           (disable : bool) : Certificate :=
  mkCertificate (mkCert t [] d) Concrete.rootKey [x01] (fun _ _ _ => Ok true) maxAge disable.

(** A delegation whose certificate bytes decode to entry 0 of the table,
    and a table whose entry 0 carries a delegation itself. *)
Definition delegation_0 : Delegation := mkDelegation [x07] [x00].

Definition nested_table : list Cert := [ mkCert Empty [] (Some delegation_0) ].

(** A certificate stamped with [ns] nanoseconds, under the root key, with
    a maximal age of [m] minutes and time verification on. *)
Definition stamped (ns m : Z) : Certificate :=
  cert_with (Concrete.time_leaf ns) None (Minutes m) false.

(** A certificate with no time under a root key that is not a DER-wrapped
    key. *)
Definition keyless_certificate : Certificate :=
  mkCertificate (mkCert Empty [] None) [] [x01] (fun _ _ _ => Ok true) (Minutes 5) true.

(** ** The freshness window to the nanosecond *)

(** A reading of nanoseconds into dates that keeps the order of time: a
    later timestamp is not read as an earlier date. *)
Definition keeps_order (toDate : Z -> JsDate) : Prop :=
  forall ns1 ns2 t1 t2,
    (ns1 <= ns2)%Z -> toDate ns1 = TimeValue t1 -> toDate ns2 = TimeValue t2 ->
    (t1 <= t2)%Z.

(** What [verify] makes of the certificate stamped [ns], with [m] minutes
    of maximal age, when the clock stands at [now] and [decodeTime] reads
    the nanoseconds by [toDate]. *)
Definition verdict (toDate : Z -> JsDate) (now m ns : Z) : Outcome unit :=
  fst (Certificate_verify (ext := Concrete.externals_with toDate now)
         (stamped ns m) Concrete.world0).

Definition too_old (o : Outcome unit) : Prop :=
  exists t now, o = Thrown (CertificateVerificationError (CertificateTooOld t now)).

Definition too_new (o : Outcome unit) : Prop :=
  exists t now, o = Thrown (CertificateVerificationError (CertificateTooNew t now)).

(** The window as the specification words it, to the nanosecond, for a
    reading [toDate]: at every clock reading [now] and maximal age of [m]
    minutes (with [now - maxAge] after the epoch), the time [now - maxAge]
    is accepted and one nanosecond before it is too old, the time
    [now + 5 minutes] is accepted and one nanosecond after it is too new. *)
Definition nanosecond_window (toDate : Z -> JsDate) : Prop :=
  forall now m : Z,
    (0 <= m)%Z -> (m * 60 * 1000 <? now)%Z = true ->
    let lo := ((now - m * 60 * 1000) * 1000000)%Z in
    let hi := ((now + 5 * 60 * 1000) * 1000000)%Z in
    verdict toDate now m lo = Returned tt /\
    too_old (verdict toDate now m (lo - 1)) /\
    verdict toDate now m hi = Returned tt /\
    too_new (verdict toDate now m (hi + 1)).

(** ** Runs of the poller *)

(** The read-state requests the reads of a trace carried, in order. *)
Definition requests_read (tr : list Event) : list (option Request) :=
  flat_map (fun e => match e with ReadState _ r => [r] | _ => [] end) tr.

(** The statuses the strategy was awaited on, in order. *)
Definition statuses_awaited (tr : list Event) : list string :=
  flat_map (fun e => match e with Awaited s => [s] | _ => [] end) tr.

(** The requests a trace saw created. *)
Definition requests_created (tr : list Event) : list Request :=
  flat_map (fun e => match e with CreatedRequest r => [r] | _ => [] end) tr.

Definition request_status_path (requestId : bytes) : Path :=
  [SegBuf (TextEncoder_encode "request_status"); SegBuf requestId].

(** The status a certificate shows for a request: the text at
    [['request_status', requestId, 'status']], "unknown" when there is no
    value there. *)
Definition status_of (requestId : bytes) (cert : Certificate) : string :=
  match lookupResultToBuffer
          (lookup cert (request_status_path requestId
                          ++ [SegBuf (TextEncoder_encode "status")])) with
  | None => RequestStatusResponseStatus.Unknown
  | Some buf => TextDecoder_decode buf
  end.

(** The statuses on which [pollForResponse] waits and tries again. *)
Definition non_terminal (status : string) : bool :=
  String.eqb status RequestStatusResponseStatus.Received
  || String.eqb status RequestStatusResponseStatus.Unknown
  || String.eqb status RequestStatusResponseStatus.Processing.

Section PollingSteps.
Context {ext : Externals}.
Variable agent : Agent.
Variable canisterId : Principal.t.
Variable requestId : bytes.
Variable strategy : PollStrategy.
Variable blsVerify : option VerifyFunc.

(** One iteration up to the [switch]: the request used, the certificate
    read and verified, and its status. *)
Definition observe (request : option Request) : M (option Request * Certificate * string) :=
  let path := request_status_path requestId in
  bindM (match request with
         | Some r => ret (Some r)
         | None =>
             match createReadStateRequest agent with
             | Some create =>
                 bindM (call_createReadStateRequest create [path]) (fun r => ret (Some r))
             | None => ret None
             end
         end)
        (fun currentRequest =>
           bindM (call_readState agent canisterId [path] currentRequest)
                 (fun certificate =>
                    match rootKey agent with
                    | None => throw RootKeyNotInitialized
                    | Some agent_rootKey =>
                        bindM (Certificate_create
                                 (mkOptions certificate agent_rootKey canisterId
                                            blsVerify None None))
                              (fun cert => ret (currentRequest, cert, status_of requestId cert))
                    end)).

(** The [switch] of [pollForResponse], [fuel] iterations being left. *)
Definition dispatch (fuel : nat) (currentRequest : option Request) (cert : Certificate)
           (status : string) : M (Certificate * option bytes) :=
  let path := request_status_path requestId in
  if String.eqb status RequestStatusResponseStatus.Replied then
    ret (cert, lookupResultToBuffer (lookup cert (path ++ [SegStr "reply"])))
  else if non_terminal status then
    bindM (call_strategy strategy canisterId requestId status)
          (fun _ => pollForResponse fuel agent canisterId requestId strategy
                                    currentRequest blsVerify)
  else if String.eqb status RequestStatusResponseStatus.Rejected then
    throw (CallRejected requestId
             (match lookupResultToBuffer (lookup cert (path ++ [SegStr "reject_code"])) with
              | Some buf => hd_error buf
              | None => None
              end)
             (match lookupResultToBuffer (lookup cert (path ++ [SegStr "reject_message"])) with
              | Some buf => TextDecoder_decode buf
              | None => EmptyString
              end))
  else if String.eqb status RequestStatusResponseStatus.Done then
    throw (CallDoneWithoutReply requestId)
  else throw Unreachable.

End PollingSteps.

Section PollingRuns.
Context {ext : Externals}.
Variable agent : Agent.
Variable canisterId : Principal.t.
Variable requestId : bytes.
Variable strategy : PollStrategy.
Variable blsVerify : option VerifyFunc.

(** A request that the next iteration takes as it is: one that exists, or
    none when the agent cannot create one. *)
Definition settled (request : option Request) : Prop :=
  request <> None \/ createReadStateRequest agent = None.

(** [Observed n request w cert status w']: from the world [w], polling
    with [request] reads [n] certificates with a non-terminal status, the
    strategy resolving after each, and then the certificate [cert] with
    [status], which leaves the world as [w']. *)
Inductive Observed : nat -> option Request -> World -> Certificate -> string -> World -> Prop :=
| observed_now request w cur cert status w' :
    observe agent canisterId requestId blsVerify request w
      = (Returned (cur, cert, status), w') ->
    Observed 0 request w cert status w'
| observed_after_retry n request w cur cert status w1 w2 cert' status' w' :
    observe agent canisterId requestId blsVerify request w
      = (Returned (cur, cert, status), w1) ->
    non_terminal status = true ->
    call_strategy strategy canisterId requestId status w1 = (Returned tt, w2) ->
    Observed n cur w2 cert' status' w' ->
    Observed (S n) request w cert' status' w'.

End PollingRuns.

(** *** The scenario "Poll Replied" *)

Module PollExample.

Definition RID : bytes := TextEncoder_encode "RID".

Definition canister : Principal.t := [x01].

(** The state tree of a certificate: the status of the request (and its
    reply, when there is one), and the time. *)
Definition state_tree (status : string) (reply : option bytes) : HashTree :=
  let status_node := Labeled (TextEncoder_encode "status") (Leaf (TextEncoder_encode status)) in
  let request_node :=
    match reply with
    | Some b => Fork (Labeled (TextEncoder_encode "reply") (Leaf b)) status_node
    | None => status_node
    end in
  Fork (Labeled (TextEncoder_encode "request_status") (Labeled RID request_node))
       (Concrete.time_leaf (Concrete.now * 1000000)).

(** What the three reads return: "processing", "processing", "replied". *)
Definition table : list Cert :=
  [ mkCert (state_tree "processing" None) [] None;
    mkCert (state_tree "processing" None) [] None;
    mkCert (state_tree "replied" (Some [xaa; xbb])) [] None ].

(** The certificate of the scenario "Poll Rejected": reject code 4,
    reject message "canister not found". *)
Definition rejected_tree : HashTree :=
  Fork (Labeled (TextEncoder_encode "request_status")
          (Labeled RID
             (Fork (Fork (Labeled (TextEncoder_encode "reject_code") (Leaf [x04]))
                         (Labeled (TextEncoder_encode "reject_message")
                                  (Leaf (TextEncoder_encode "canister not found"))))
                   (Labeled (TextEncoder_encode "status")
                            (Leaf (TextEncoder_encode "rejected"))))))
       (Concrete.time_leaf (Concrete.now * 1000000)).

Definition table_rejected : list Cert := [ mkCert rejected_tree [] None ].

Definition ext : Externals := Concrete.externals table.

(** The k-th read answers with the byte k, which decodes to entry k; the
    k-th created request is the request object k. *)
Definition agent : Agent :=
  mkAgent (Some Concrete.rootKey)
          (Some (fun k _ => Ok (RequestObject k)))
          (fun k _ _ _ => Ok [byte_of_Z (Z.of_nat k)]).

Definition strategy : PollStrategy := fun _ _ _ _ => Ok tt.

Definition verified (k : nat) : Certificate :=
  mkCertificate (nth k table (mkCert Empty [] None)) Concrete.rootKey canister
                (fun _ _ _ => Ok true) (Minutes 5) false.

Definition created : option Request := Some (RequestObject 0).

Definition events : list Event :=
  [ CreatedRequest (RequestObject 0);
    ReadState canister created; Awaited "processing";
    ReadState canister created; Awaited "processing";
    ReadState canister created ].

(** The world after the k-th read and its verification, and after the
    k-th await. *)
Definition rejected : Certificate :=
  mkCertificate (mkCert rejected_tree [] None) Concrete.rootKey canister
                (fun _ _ _ => Ok true) (Minutes 5) false.

Definition after_read (k : nat) : World :=
  mkWorld k 1 k (k - 1) (firstn (2 * k) events).

Definition after_await (k : nat) : World :=
  mkWorld k 1 k k (firstn (2 * k + 1) events).

End PollExample.

(** ** Paths, labels and prunings *)

(** The node a lookup result stands for. *)
Definition node_of (v : LookupValue) : HashTree :=
  match v with
  | VBuffer b => Leaf b
  | VTree t => t
  end.

(** [resolves labels t s]: following [labels] from [t], each label being
    the label of a [Labeled] node among the flattened forks of the tree
    reached so far, ends at [s]. *)
Fixpoint resolves (labels : list bytes) (t s : HashTree) : Prop :=
  match labels with
  | [] => s = t
  | l :: rest =>
      exists sub, In (Labeled l sub) (flatten_forks t) /\ resolves rest sub s
  end.

Fixpoint has_pruned (t : HashTree) : bool :=
  match t with
  | Pruned _ => true
  | Fork t1 t2 => has_pruned t1 || has_pruned t2
  | Labeled _ sub => has_pruned sub
  | _ => false
  end.

(** The labels of the [Labeled] nodes among the flattened forks, left to
    right. *)
Definition labels_of (t : HashTree) : list bytes :=
  flat_map (fun n => match n with Labeled l _ => [l] | _ => [] end) (flatten_forks t).

(** A tree of forks whose leaves are all [Labeled] nodes: the shape of one
    level of a state tree from which nothing was pruned. *)
Fixpoint labels_only (t : HashTree) : bool :=
  match t with
  | Labeled _ _ => true
  | Fork t1 t2 => labels_only t1 && labels_only t2
  | _ => false
  end.

(** Strictly below, in the order of [compare]. *)
Definition label_lt (a b : bytes) : Prop := (Buffer.compare a b < 0)%Z.

(** [isBufferGreaterThan] is right about the query [q] and the label [l]. *)
Definition comparison_right (q l : bytes) : Prop :=
  isBufferGreaterThan q l = (0 <? Buffer.compare q l)%Z.

(** Text that is ASCII, as the tags of the domain separators are. *)
Definition is_ascii (s : string) : Prop :=
  Forall (fun b => (byte_val b < 128)%Z) (TextEncoder_encode s).

Section PruningNotion.
Context {ext : Externals}.

(** [Pruning t t']: [t'] is [t] with some of its subtrees replaced by
    [Pruned] nodes that carry their root hashes. *)
Inductive Pruning : HashTree -> HashTree -> Prop :=
| pruning_here t : Pruning t (Pruned (reconstruct t))
| pruning_same t : Pruning t t
| pruning_fork t1 t2 t1' t2' :
    Pruning t1 t1' -> Pruning t2 t2' -> Pruning (Fork t1 t2) (Fork t1' t2')
| pruning_labeled l sub sub' :
    Pruning sub sub' -> Pruning (Labeled l sub) (Labeled l sub').

(** The message a certificate's signature is over. *)
Definition signed_message (c : Cert) : bytes :=
  Buffer.concat [domain_sep "ic-state-root"; reconstruct (tree c)].

End PruningNotion.

(** The tree of the examples: "a" and "c" at the top, a leaf under each. *)
Definition tree_a_c : HashTree :=
  Fork (Labeled (TextEncoder_encode "a") (Leaf [x01]))
       (Labeled (TextEncoder_encode "c") (Leaf [x02])).

(** ** Polls that fail *)

Module PollFailureExample.

(** The agent of [PollExample], its root key not fetched yet. *)
Definition agent_without_key : Agent :=
  mkAgent None (createReadStateRequest PollExample.agent) (readState PollExample.agent).

(** A certificate whose status is none of the six the poller knows. *)
Definition table_paused : list Cert :=
  [ mkCert (PollExample.state_tree "paused" None) [] None ].

Definition paused : Certificate :=
  mkCertificate (mkCert (PollExample.state_tree "paused" None) [] None)
                Concrete.rootKey PollExample.canister (fun _ _ _ => Ok true) (Minutes 5) false.

End PollFailureExample.

(** ** Reads of the clock *)

(** A computation that calls [Date.now()] at most [n] times. *)
Definition reads_clock {A : Type} (n : nat) (m : M A) : Prop :=
  forall w, ticks w <= ticks (snd (m w)) <= ticks w + n.

(** ** A certificate with a delegation *)

Module DelegationExample.

Definition subnet : bytes := [x07].

Definition canister : Principal.t := [x01].

(** The certificate of the delegation: the ranges and the public key of
    the subnet, and the time. *)
Definition inner_tree : HashTree :=
  Fork (Labeled (TextEncoder_encode "subnet")
          (Labeled subnet
             (Fork (Labeled (TextEncoder_encode "canister_ranges") (Leaf [x00]))
                   (Labeled (TextEncoder_encode "public_key") (Leaf Concrete.rootKey)))))
       (Concrete.time_leaf (Concrete.now * 1000000)).

Definition table : list Cert := [ mkCert inner_tree [] None ].

(** The collaborators of [Concrete], with ranges that decode to the one
    range from the principal 00 to the principal 05. *)
Definition ext : Externals :=
  {| sha256 := Sha256.sha256;
     cbor_decode_cert := Concrete.decode_from table;
     cbor_decode_ranges := fun _ => Ok [([x00], [x05])];
     bls_blsVerify := fun _ _ _ => Ok true;
     decodeTime := Concrete.decodeTime_by Concrete.whole_milliseconds;
     Date_now_at := fun _ => Concrete.now |}.

(** A certificate of the canister 01, delegated to the subnet 07, its time
    verification disabled. *)
Definition delegated : Certificate :=
  mkCertificate (mkCert (Concrete.time_leaf (Concrete.now * 1000000)) []
                        (Some (mkDelegation subnet [x00])))
                Concrete.rootKey canister (fun _ _ _ => Ok true) (Minutes 5) true.

End DelegationExample.

(** * Properties *)

(** ** Byte comparison *)

Lemma byte_val_inj (a b : byte) : byte_val a = byte_val b -> a = b.
Proof.
  unfold byte_val. intros H. apply N2Z.inj in H.
  pose proof (Byte.of_to_N a) as Ha. pose proof (Byte.of_to_N b) as Hb.
  rewrite H in Ha. congruence.
Qed.

Lemma compare_refl (a : bytes) : Buffer.compare a a = 0%Z.
Proof.
  induction a as [|x a IH]; simpl; [reflexivity|].
  now rewrite Z.eqb_refl.
Qed.

Lemma compare_eq (a b : bytes) : Buffer.compare a b = 0%Z -> a = b.
Proof.
  revert b. induction a as [|x a IH]; intros [|y b]; simpl; intros H.
  - reflexivity.
  - lia.
  - lia.
  - destruct (byte_val x =? byte_val y)%Z eqn:E.
    + apply Z.eqb_eq in E. apply byte_val_inj in E. subst. f_equal. now apply IH.
    + apply Z.eqb_neq in E. lia.
Qed.

Lemma bufEquals_true_iff (a b : bytes) : Buffer.bufEquals a b = true <-> a = b.
Proof.
  unfold Buffer.bufEquals. rewrite Z.eqb_eq. split.
  - apply compare_eq.
  - intros ->. apply compare_refl.
Qed.

Lemma bufEquals_false_iff (a b : bytes) : Buffer.bufEquals a b = false <-> a <> b.
Proof.
  rewrite <- bufEquals_true_iff. destruct (Buffer.bufEquals a b); split; congruence.
Qed.

(** ** Label search *)

Lemma js_gt_irrefl (x : option byte) : js_gt x x = false.
Proof. destruct x; simpl; [apply Z.ltb_irrefl | reflexivity]. Qed.

Lemma isBufferGreaterThan_irrefl (a : bytes) : isBufferGreaterThan a a = false.
Proof.
  unfold isBufferGreaterThan. apply not_true_is_false. intros H.
  apply existsb_exists in H. destruct H as [i [_ H]].
  now rewrite js_gt_irrefl in H.
Qed.

(** The part of the label comparison that holds on the code: a label equal
    to the node's is found. *)
Lemma find_label_equal (l : bytes) (t : HashTree) :
  find_label l (Labeled l t) = LFound t.
Proof.
  simpl. rewrite isBufferGreaterThan_irrefl.
  now rewrite (proj2 (bufEquals_true_iff l l) eq_refl).
Qed.

(** What [find_label] answers at a labelled node is decided by
    [isBufferGreaterThan] first. *)
Lemma find_label_labeled (label l : bytes) (t : HashTree) :
  find_label label (Labeled l t) =
    if isBufferGreaterThan label l then LGreater
    else if Buffer.bufEquals label l then LFound t else LLess.
Proof. reflexivity. Qed.

(** C1 (the code departs from the specification): at a [Labeled] node the
    query label "ab" is reported greater than the node label "ba", although
    it is smaller in byte-lexicographic order, and reported less than the
    node label "a", although it is greater (a common prefix, the longer
    one): [isBufferGreaterThan] looks at every position on its own and never
    at the lengths. As a consequence a label that the tree holds is
    reported absent: "ab" in a fork of "a" and "ab". *)
Theorem find_label_positional_comparison (t : HashTree) (x y : bytes) :
  let ab := TextEncoder_encode "ab" in
  let ba := TextEncoder_encode "ba" in
  let a := TextEncoder_encode "a" in
  (Buffer.compare ab ba < 0)%Z /\ find_label ab (Labeled ba t) = LGreater /\
  (Buffer.compare ab a > 0)%Z /\ find_label ab (Labeled a t) = LLess /\
  lookup_path [SegStr "ab"] (Fork (Labeled a (Leaf x)) (Labeled ab (Leaf y))) = Absent.
Proof. repeat split. Qed.

(** C2: the search at a fork, at a pruned node, at an empty node and at a
    leaf, the conversion [lookup_path] makes of "greater" and "less", and
    the three lookups of the scenario. *)
Theorem find_label_fork_and_lookup :
  (forall label t1 t2,
      (find_label label t1 = LGreater ->
       find_label label (Fork t1 t2) =
         match find_label label t2 with LLess => LAbsent | r => r end) /\
      (find_label label t1 = LUnknown ->
       find_label label (Fork t1 t2) =
         match find_label label t2 with LLess => LUnknown | r => r end) /\
      (find_label label t1 <> LGreater -> find_label label t1 <> LUnknown ->
       find_label label (Fork t1 t2) = find_label label t1)) /\
  (forall label h, find_label label (Pruned h) = LUnknown) /\
  (forall label, find_label label Empty = LAbsent) /\
  (forall label b, find_label label (Leaf b) = LAbsent) /\
  (forall seg rest t,
      find_label (segment_label seg) t = LGreater \/
      find_label (segment_label seg) t = LLess ->
      lookup_path (seg :: rest) t = Absent) /\
  (forall x y h,
      let a := TextEncoder_encode "a" in
      let c := TextEncoder_encode "c" in
      let bracketed := Fork (Labeled a (Leaf x)) (Labeled c (Leaf y)) in
      let hidden := Fork (Pruned h) (Labeled c (Leaf y)) in
      lookup_path [SegStr "b"] bracketed = Absent /\
      lookup_path [SegStr "b"] hidden = Unknown /\
      lookup_path [SegStr "d"] bracketed = Absent /\
      lookup_path [SegStr "d"] hidden = Absent).
Proof.
  repeat split.
  - intros H. simpl. rewrite H. now destruct (find_label label t2).
  - intros H. simpl. rewrite H. now destruct (find_label label t2).
  - intros H1 H2. simpl. destruct (find_label label t1); congruence.
  - intros seg rest t [H | H]; simpl; now rewrite H.
Qed.

(** ** SHA-256, checked on the test vectors of FIPS 180-4 *)

Example sha256_abc :
  Sha256.sha256 (TextEncoder_encode "abc") =
    Buffer.fromHex "ba7816bf8f01cfea414140de5dae2223b00361a396177a9cb410ff61f20015ad".
Proof. vm_compute. reflexivity. Qed.

Example sha256_two_blocks :
  Sha256.sha256
    (TextEncoder_encode "abcdbcdecdefdefgefghfghighijhijkijkljklmklmnlmnomnopnopq") =
    Buffer.fromHex "248d6a61d20638b8e5c026930c3e6039a33ce45964ff2167f6ecedd419db06c1".
Proof. vm_compute. reflexivity. Qed.

(** The digest has thirty-two bytes. *)
Lemma sha256_length (msg : bytes) : List.length (Sha256.sha256 msg) = 32.
Proof.
  unfold Sha256.sha256.
  assert (H : forall n h data, List.length h = 8 ->
                               List.length (Sha256.blocks n h data) = 8).
  { induction n as [|n IH]; intros h data Hh; simpl; [exact Hh|]. now apply IH. }
  specialize (H (Nat.div (List.length (Sha256.pad msg)) 64) Sha256.H0 (Sha256.pad msg) eq_refl).
  destruct (Sha256.blocks _ _ _) as [|a [|b [|c [|d [|e [|f [|g [|h [|]]]]]]]]];
    try discriminate. reflexivity.
Qed.

(** ** Reconstruction *)

(** On ASCII text [s.length] is the number of bytes, so [domain_sep] is the
    separator of the specification. *)
Lemma utf16_units_ascii (l : bytes) :
  Forall (fun b => (byte_val b < 128)%Z) l ->
  list_sum (map utf16_units l) = List.length l.
Proof.
  induction 1 as [|b l Hb _ IH]; simpl; [reflexivity|].
  rewrite IH. unfold utf16_units.
  destruct (128 <=? byte_val b)%Z eqn:E1.
  - apply Z.leb_le in E1. lia.
  - simpl. destruct (240 <=? byte_val b)%Z eqn:E2; [apply Z.leb_le in E2; lia | reflexivity].
Qed.

Lemma domain_sep_ascii (s : string) :
  Forall (fun b => (byte_val b < 128)%Z) (TextEncoder_encode s) ->
  domain_sep s = DS_spec s.
Proof.
  intros H. unfold domain_sep, DS_spec, Buffer.concat, js_length. simpl.
  rewrite (utf16_units_ascii H). now rewrite app_nil_r.
Qed.

(** C3: the root hash of each kind of node, with the domain separator of
    the specification; the separator of a leaf starts with the byte 0x10. *)
Theorem reconstruct_by_node (ext : Externals) :
  reconstruct Empty = sha256 (DS_spec "ic-hashtree-empty") /\
  (forall b, reconstruct (Leaf b) = sha256 (DS_spec "ic-hashtree-leaf" ++ b)) /\
  (forall l sub,
      reconstruct (Labeled l sub) =
        sha256 (DS_spec "ic-hashtree-labeled" ++ l ++ reconstruct sub)) /\
  (forall t1 t2,
      reconstruct (Fork t1 t2) =
        sha256 (DS_spec "ic-hashtree-fork" ++ reconstruct t1 ++ reconstruct t2)) /\
  (forall d, reconstruct (Pruned d) = d) /\
  DS_spec "ic-hashtree-leaf" = x10 :: TextEncoder_encode "ic-hashtree-leaf".
Proof.
  repeat split; intros; simpl; unfold hash, Buffer.concat; simpl;
    rewrite ?app_nil_r; reflexivity.
Qed.

(** The leaf of the specification's scenario, on the real SHA-256. *)
Example reconstruct_leaf_010203 :
  reconstruct (ext := Concrete.externals []) (Leaf [x01; x02; x03]) =
    Sha256.sha256 (x10 :: TextEncoder_encode "ic-hashtree-leaf" ++ [x01; x02; x03])
  /\ reconstruct (ext := Concrete.externals []) (Leaf [x01; x02; x03]) =
    Buffer.fromHex "5e3294903fd3c73721405cc07b3d32cebf0c31f65ba314294098ebbc4dfcee88".
Proof. split; vm_compute; reflexivity. Qed.

(** ** DER unwrapping *)

Lemma DER_PREFIX_eq : DER_PREFIX = DER_PREFIX_bytes.
Proof. vm_compute. reflexivity. Qed.

Lemma DER_PREFIX_length : List.length DER_PREFIX = 37.
Proof. vm_compute. reflexivity. Qed.

(** C6: [extractDER] returns the trailing 96 bytes exactly when the buffer
    has 133 bytes and starts with the 37 bytes of the prefix, and throws
    its [TypeError] on any other length and on any other prefix. *)
Theorem extractDER_spec (buf : bytes) :
  (forall key,
      extractDER buf = Ok key <->
      List.length buf = 133 /\ firstn 37 buf = DER_PREFIX_bytes /\
      key = skipn 37 buf /\ List.length key = 96) /\
  (List.length buf <> 133 ->
   extractDER buf = Throw (DERTypeError (WrongLength 133))) /\
  (List.length buf = 133 -> firstn 37 buf <> DER_PREFIX_bytes ->
   extractDER buf = Throw (DERTypeError (WrongPrefix (firstn 37 buf)))).
Proof.
  unfold extractDER. rewrite DER_PREFIX_length. rewrite DER_PREFIX_eq.
  change (37 + KEY_LENGTH) with 133.
  destruct (List.length buf =? 133) eqn:El; cbn [negb].
  - apply Nat.eqb_eq in El.
    destruct (Buffer.bufEquals (firstn 37 buf) DER_PREFIX_bytes) eqn:Ep; cbn [negb].
    + apply bufEquals_true_iff in Ep. split; [|split]; try congruence.
      intros key. split.
      * intros H. assert (key = skipn 37 buf) as -> by congruence.
        rewrite length_skipn. repeat split; auto; lia.
      * intros (_ & _ & -> & _). reflexivity.
    + apply bufEquals_false_iff in Ep. split; [|split]; try congruence.
      intros key. split.
      * intros H; discriminate H.
      * intros (_ & H & _). contradiction.
  - apply Nat.eqb_neq in El. split; [|split]; try congruence.
    intros key. split.
    + intros H; discriminate H.
    + intros (H & _). contradiction.
Qed.

(** C6 on a well-formed key: the prefix and 96 bytes unwrap to the 96
    bytes; a key that is one byte short does not unwrap. *)
Lemma extractDER_rootKey :
  extractDER Concrete.rootKey = Ok (repeat x2a 96) /\
  extractDER (removelast Concrete.rootKey) = Throw (DERTypeError (WrongLength 133)).
Proof.
  split.
  - apply (proj1 (extractDER_spec Concrete.rootKey)). vm_compute. repeat split.
  - apply (proj1 (proj2 (extractDER_spec (removelast Concrete.rootKey)))).
    vm_compute. discriminate.
Defined.

(** ** The order of [compare] *)

Lemma compare_antisym (a b : bytes) : Buffer.compare b a = (- Buffer.compare a b)%Z.
Proof.
  revert b. induction a as [|x a IH]; intros [|y b]; cbn [Buffer.compare].
  - reflexivity.
  - lia.
  - lia.
  - rewrite (Z.eqb_sym (byte_val y)).
    destruct (byte_val x =? byte_val y)%Z; [apply IH | lia].
Qed.

Lemma compare_trans (a b c : bytes) :
  (Buffer.compare a b <= 0)%Z -> (Buffer.compare b c <= 0)%Z ->
  (Buffer.compare a c <= 0)%Z.
Proof.
  revert b c. induction a as [|x a IH]; intros [|y b] [|z c];
    cbn [Buffer.compare List.length]; try lia.
  destruct (byte_val x =? byte_val y)%Z eqn:Exy;
    destruct (byte_val y =? byte_val z)%Z eqn:Eyz;
    destruct (byte_val x =? byte_val z)%Z eqn:Exz;
    rewrite ?Z.eqb_eq, ?Z.eqb_neq in *; try lia.
  apply IH.
Qed.

(** ** Sorting *)

Section Sorting.
Variable A : Type.
Variable compareFn : A -> A -> Z.

Hypothesis compareFn_total : forall x y, before compareFn x y \/ before compareFn y x.

Lemma sort_insert_perm (x : A) (l : list A) :
  Permutation (x :: l) (sort_insert compareFn x l).
Proof.
  induction l as [|y r IH]; simpl; [reflexivity|].
  destruct (compareFn x y <=? 0)%Z; [reflexivity|].
  rewrite perm_swap. now apply perm_skip.
Qed.

Lemma Array_sort_perm (l : list A) : Permutation l (Array_sort compareFn l).
Proof.
  induction l as [|x r IH]; simpl; [reflexivity|].
  rewrite <- sort_insert_perm. now apply perm_skip.
Qed.

Lemma sort_insert_sorted (x : A) (l : list A) :
  Sorted (before compareFn) l -> Sorted (before compareFn) (sort_insert compareFn x l).
Proof.
  induction 1 as [|y r Hr IH Hhd]; simpl.
  - repeat constructor.
  - destruct (compareFn x y <=? 0)%Z eqn:E.
    + apply Z.leb_le in E. repeat constructor; assumption.
    + apply Z.leb_gt in E.
      assert (before compareFn y x) as Hyx
          by (destruct (compareFn_total x y) as [H | H]; [unfold before in H; lia | exact H]).
      constructor; [exact IH|].
      destruct r as [|z r']; simpl.
      * now constructor.
      * destruct (compareFn x z <=? 0)%Z; constructor; [exact Hyx|].
        now inversion Hhd.
Qed.

Lemma Array_sort_sorted (l : list A) : Sorted (before compareFn) (Array_sort compareFn l).
Proof.
  induction l as [|x r IH]; simpl; [constructor | now apply sort_insert_sorted].
Qed.

End Sorting.

(** Two lists sorted by key, with the same elements and no key twice, are
    the same list. *)
Lemma sorted_by_key_unique (V : Type) (l1 l2 : list (bytes * V)) :
  let le := fun a b : bytes * V => (Buffer.compare (fst a) (fst b) <= 0)%Z in
  Sorted le l1 -> Sorted le l2 -> Permutation l1 l2 -> NoDup (map fst l1) ->
  l1 = l2.
Proof.
  intros le S1 S2.
  assert (Htrans : Relations_1.Transitive le)
    by (intros a b c; unfold le; apply compare_trans).
  apply (Sorted_StronglySorted Htrans) in S1, S2.
  revert l2 S2. induction S1 as [|a r1 S1 IH F1]; intros l2 S2 P ND.
  - now apply Permutation_nil in P.
  - destruct S2 as [|b r2 S2 F2].
    + apply Permutation_sym, Permutation_nil in P. discriminate.
    + assert (a = b) as <-.
      { assert (Ha : In a (b :: r2)) by (apply (Permutation_in _ P); now left).
        assert (Hb : In b (a :: r1))
          by (apply (Permutation_in _ (Permutation_sym P)); now left).
        destruct Ha as [-> | Ha]; [reflexivity|].
        destruct Hb as [-> | Hb]; [reflexivity|].
        rewrite Forall_forall in F1, F2.
        pose proof (F1 _ Hb) as Hab. pose proof (F2 _ Ha) as Hba. unfold le in Hab, Hba.
        rewrite (compare_antisym (fst a) (fst b)) in Hba.
        assert (fst a = fst b) by (apply compare_eq; lia).
        inversion ND as [|? ? Hnin _]; subst. exfalso. apply Hnin.
        rewrite H. now apply in_map. }
      f_equal. apply IH; [exact S2 | now apply Permutation_cons_inv in P |].
      now inversion ND.
Qed.

(** ** Hashing of maps *)

Lemma filter_mapR_eq (E A B : Type) (keep : A -> bool) (f : A -> Result E B) (l : list A) :
  filter_mapR keep f l = mapR f (filter keep l).
Proof.
  induction l as [|x r IH]; simpl; [reflexivity|].
  destruct (keep x); simpl; [|exact IH].
  destruct (f x); [|reflexivity]. now rewrite IH.
Qed.

(** Mapping over a rearranged array gives the rearranged results, or throws
    in both orders (not always the same exception: the first one met). *)
Lemma mapR_perm (E A B : Type) (f : A -> Result E B) (l1 l2 : list A) :
  Permutation l1 l2 ->
  match mapR f l1, mapR f l2 with
  | Ok a, Ok b => Permutation a b
  | Throw _, Throw _ => True
  | _, _ => False
  end.
Proof.
  induction 1 as [|x l l' _ IH|x y l|l l' l'' _ IH1 _ IH2]; simpl.
  - constructor.
  - destruct (f x); [|exact I].
    destruct (mapR f l), (mapR f l'); try assumption. now apply perm_skip.
  - destruct (f x), (f y), (mapR f l); try exact I. apply perm_swap.
  - destruct (mapR f l), (mapR f l'), (mapR f l''); try assumption; try contradiction.
    now transitivity a0.
Qed.

Lemma mapR_ok_map (E A B C : Type) (f : A -> Result E B) (g : B -> C) (h : A -> C)
      (l : list A) (ys : list B) :
  (forall x y, f x = Ok y -> g y = h x) ->
  mapR f l = Ok ys -> map g ys = map h l.
Proof.
  intros Hgh. revert ys. induction l as [|x r IH]; simpl; intros ys H.
  - injection H as <-. reflexivity.
  - destruct (f x) as [y|] eqn:Ex; [|discriminate].
    destruct (mapR f r) as [ys'|]; [|discriminate].
    injection H as <-. simpl. now rewrite (Hgh _ _ Ex), (IH ys').
Qed.

Section HashOfMap.
Context {ext : Externals}.

Lemma hashOfMap_eq (map : list (string * JsValue)) :
  hashOfMap map =
    bindR (mapR hashed_entry (defined_entries map))
          (fun hashed =>
             Ok (sha256 (List.concat
                           (List.map (fun x => fst x ++ snd x)
                              (Array_sort (fun a b => Buffer.compare (fst a) (fst b))
                                          hashed))))).
Proof.
  unfold hashOfMap, hashOfMap_body. rewrite filter_mapR_eq.
  fold hashed_entry. unfold defined_entries.
  destruct (mapR _ _); simpl; [|reflexivity].
  unfold hash, Buffer.concat. f_equal. f_equal. f_equal.
  apply map_ext. intros [k v]. simpl. now rewrite app_nil_r.
Qed.

Lemma by_hashed_key_total (a b : bytes * bytes) :
  by_hashed_key a b \/ by_hashed_key b a.
Proof.
  unfold by_hashed_key. rewrite (compare_antisym (fst a) (fst b)). lia.
Qed.

End HashOfMap.



(** ** The detection order of [hashValue] *)

(** The values no test matches. *)
Lemma matches_none_inv (v : JsValue) :
  matches_none v = true ->
  v = JsUndefined \/ (exists b, v = JsBoolean b) \/ v = JsFunction \/
  (exists d, v = JsSymbol d).
Proof.
  destruct v as [| | | | | | | |o]; intros H; try discriminate; eauto.
  destruct o as [[?|] [?|] [?|] [?|] [?|] ?]; discriminate.
Qed.

(** [hashValue] as the source writes it: the tests one after the other,
    each [else if] reached when the tests before it failed. The last three
    ([typeof value === 'object'], which [null] passes and on which
    [Object.entries] then throws; [typeof value === 'bigint']; the final
    [throw]) exclude one another and are one [match]. *)
Lemma hashValue_eq (ext : Externals) (value : JsValue) :
  hashValue value =
    match facet (@tagged_value _) value with
    | Some inner => hashValue inner
    | None =>
    match value with
    | JsString s => Ok (hashString s)
    | _ =>
    match value with
    | JsNumber n => bindR (lebEncode_number n) (fun b => Ok (hash b))
    | _ =>
    match facet (@buffer_bytes _) value with
    | Some b => Ok (hash b)
    | None =>
    match facet (@array_elements _) value with
    | Some elements =>
        bindR (mapR hashValue elements) (fun vals => Ok (hash (Buffer.concat vals)))
    | None =>
    match facet (@principal_bytes _) value with
    | Some p => Ok (hash p)
    | None =>
    match facet (@toHash_result _) value with
    | Some projection => hashValue projection
    | None =>
    match value with
    | JsObject o => hashOfMap (own_entries o)
    | JsNull => Throw EntriesOfNull
    | JsBigInt n => bindR (lebEncode_bigint n) (fun b => Ok (hash b))
    | _ => Throw (unsupported value)
    end end end end end end end end.
Proof.
  destruct value; reflexivity.
Qed.

(** The detection order of [hashValue]: each way of hashing applies when
    its test passes and no earlier one does, whatever the later ones say. *)
Theorem hashValue_detection_order (ext : Externals) (v : JsValue) :
  (forall inner, facet (@tagged_value _) v = Some inner -> hashValue v = hashValue inner) /\
  (forall s, v = JsString s -> hashValue v = Ok (sha256 (TextEncoder_encode s))) /\
  (forall n, v = JsNumber n ->
             hashValue v = bindR (lebEncode_number n) (fun b => Ok (sha256 b))) /\
  (forall b, facet (@tagged_value _) v = None ->
             facet (@buffer_bytes _) v = Some b ->
             hashValue v = Ok (sha256 b)) /\
  (forall elements,
      facet (@tagged_value _) v = None -> facet (@buffer_bytes _) v = None ->
      facet (@array_elements _) v = Some elements ->
      hashValue v = bindR (mapR hashValue elements)
                          (fun vals => Ok (sha256 (List.concat vals)))) /\
  (forall p,
      facet (@tagged_value _) v = None -> facet (@buffer_bytes _) v = None ->
      facet (@array_elements _) v = None ->
      facet (@principal_bytes _) v = Some p ->
      hashValue v = Ok (sha256 p)) /\
  (forall projection,
      facet (@tagged_value _) v = None -> facet (@buffer_bytes _) v = None ->
      facet (@array_elements _) v = None -> facet (@principal_bytes _) v = None ->
      facet (@toHash_result _) v = Some projection ->
      hashValue v = hashValue projection) /\
  (forall o,
      v = JsObject o ->
      tagged_value o = None -> buffer_bytes o = None -> array_elements o = None ->
      principal_bytes o = None -> toHash_result o = None ->
      hashValue v = hashOfMap (own_entries o)) /\
  (v = JsNull -> hashValue v = Throw EntriesOfNull) /\
  (forall n, v = JsBigInt n ->
             hashValue v = bindR (lebEncode_bigint n) (fun b => Ok (sha256 b))) /\
  (matches_none v = true -> (forall d, v <> JsSymbol d) ->
   hashValue v = Throw (UnsupportedType v)).
Proof.
  repeat split; intros; subst; try reflexivity.
  - destruct v; try discriminate. simpl in *. now rewrite H.
  - destruct v; try discriminate. simpl in *. now rewrite H, H0.
  - destruct v; try discriminate. simpl in *. now rewrite H, H0, H1.
  - destruct v; try discriminate. simpl in *. now rewrite H, H0, H1, H2.
  - destruct v; try discriminate. simpl in *. now rewrite H, H0, H1, H2, H3.
  - simpl. now rewrite H0, H1, H2, H3, H4.
  - destruct (matches_none_inv _ H) as [-> | [[b ->] | [-> | [d ->]]]]; try reflexivity.
    now destruct (H0 d).
Qed.

(** The order at work: an array that carries [_isPrincipal] is hashed as a
    sequence, a principal with a [toHash] method as a principal, and a
    tagged wrapper around a text as the text, the tag dropped. *)
Lemma hashValue_detection_order_examples :
  let ext := Concrete.externals [] in
  let hello := JsString "hello" in
  let array_and_principal :=
    JsObject (mkObject None None (Some [hello]) (Some [x01]) None []) in
  let principal_and_projection :=
    JsObject (mkObject None None None (Some [x01]) (Some hello) []) in
  let tagged := JsObject (mkObject (Some hello) None None None None []) in
  hashValue array_and_principal
    = bindR (mapR hashValue [hello]) (fun vals => Ok (sha256 (List.concat vals))) /\
  hashValue principal_and_projection = Ok (sha256 [x01]) /\
  hashValue tagged = hashValue hello /\
  hashValue JsUndefined = Throw (UnsupportedType JsUndefined).
Proof.
  intros ext hello a p t.
  split; [apply (proj1 (proj2 (proj2 (proj2 (proj2 (hashValue_detection_order ext a))))));
          reflexivity|].
  split; [apply (proj1 (proj2 (proj2 (proj2 (proj2 (proj2 (hashValue_detection_order ext p)))))));
          reflexivity|].
  split; [apply (proj1 (hashValue_detection_order ext t)); reflexivity|].
  apply (proj2 (proj2 (proj2 (proj2 (proj2 (proj2 (proj2 (proj2 (proj2 (proj2
           (hashValue_detection_order ext JsUndefined))))))))))); [reflexivity|].
  intros d; discriminate.
Defined.

(** C8 (the code departs from the specification): a symbol passes none of the
    tests, and what is thrown is not the unsupported-type error with the
    value attached: the template literal of the message throws a
    [TypeError] first. *)
Theorem hashValue_symbol (ext : Externals) (description : string) :
  matches_none (JsSymbol description) = true /\
  hashValue (JsSymbol description) = Throw SymbolToString /\
  hashValue (JsSymbol description) <> Throw (UnsupportedType (JsSymbol description)).
Proof. repeat split. discriminate. Qed.

(** ** Quiet and settling computations *)

Lemma same_calls_refl (w : World) : same_calls w w.
Proof. repeat split. Qed.

Lemma same_calls_trans (w1 w2 w3 : World) :
  same_calls w1 w2 -> same_calls w2 w3 -> same_calls w1 w3.
Proof. unfold same_calls. intuition congruence. Qed.

Lemma quiet_ret (A : Type) (a : A) : quiet (ret a).
Proof. intros w. apply same_calls_refl. Qed.

Lemma quiet_throw (A : Type) (e : Exn) : quiet (@throw A e).
Proof. intros w. apply same_calls_refl. Qed.

Lemma quiet_pending (A : Type) : quiet (@pending A).
Proof. intros w. apply same_calls_refl. Qed.

Lemma quiet_lift (A : Type) (r : Result Exn A) : quiet (lift r).
Proof. destruct r; [apply quiet_ret | apply quiet_throw]. Qed.

Lemma quiet_bind (A B : Type) (m : M A) (k : A -> M B) :
  quiet m -> (forall a, quiet (k a)) -> quiet (bindM m k).
Proof.
  intros Hm Hk w. unfold bindM. specialize (Hm w).
  destruct (m w) as [[a| |] w1]; simpl in *; try assumption.
  eapply same_calls_trans; [exact Hm | apply Hk].
Qed.

Lemma quiet_Date_now (ext : Externals) : quiet Date_now.
Proof. intros w. repeat split. Qed.

Lemma settles_ret (A : Type) (a : A) : settles (ret a).
Proof. intros w. discriminate. Qed.

Lemma settles_throw (A : Type) (e : Exn) : settles (@throw A e).
Proof. intros w. discriminate. Qed.

Lemma settles_lift (A : Type) (r : Result Exn A) : settles (lift r).
Proof. destruct r; [apply settles_ret | apply settles_throw]. Qed.

Lemma settles_bind (A B : Type) (m : M A) (k : A -> M B) :
  settles m -> (forall a, settles (k a)) -> settles (bindM m k).
Proof.
  intros Hm Hk w. unfold bindM. specialize (Hm w).
  destruct (m w) as [[a| |] w1]; simpl in *; try discriminate; try contradiction.
  apply Hk.
Qed.

Lemma settles_Date_now (ext : Externals) : settles Date_now.
Proof. intros w. discriminate. Qed.

Create HintDb world discriminated.
#[export] Hint Resolve quiet_ret quiet_throw quiet_pending quiet_lift quiet_bind
  quiet_Date_now settles_ret settles_throw settles_lift settles_bind
  settles_Date_now : world.

(** Case analysis on what a computation in the world branches on. *)
Ltac world_cases :=
  repeat first
    [ progress intros
    | match goal with
      | |- quiet (match ?x with _ => _ end) => destruct x
      | |- settles (match ?x with _ => _ end) => destruct x
      | |- quiet (if ?b then _ else _) => destruct b
      | |- settles (if ?b then _ else _) => destruct b
      end
    | solve [auto with world]
    | apply quiet_bind
    | apply settles_bind ].

Section VerifyFacts.
Context {ext : Externals}.

Lemma bindM_ext (A B : Type) (m1 m2 : M A) (k : A -> M B) (w : World) :
  m1 w = m2 w -> bindM m1 k w = bindM m2 k w.
Proof. unfold bindM. now intros ->. Qed.

Lemma bindM_ext_k (A B : Type) (m : M A) (k1 k2 : A -> M B) (w : World) :
  (forall a w', k1 a w' = k2 a w') -> bindM m k1 w = bindM m k2 w.
Proof. intros H. unfold bindM. destruct (m w) as [[a| |] w1]; auto. Qed.

Lemma verify_body_quiet (key : M bytes) (this : Certificate) :
  quiet key -> quiet (verify_body key this).
Proof. intros Hkey. unfold verify_body. world_cases. Qed.

Lemma verify_body_settles (key : M bytes) (this : Certificate) :
  settles key -> settles (verify_body key this).
Proof. intros Hkey. unfold verify_body. world_cases. Qed.

Lemma checkDelegationAndGetKey_quiet (v : Certificate -> M unit) this d :
  (forall c, quiet (v c)) -> quiet (_checkDelegationAndGetKey v this d).
Proof. intros Hv. unfold _checkDelegationAndGetKey. world_cases. Qed.

Lemma verify_quiet (fuel : nat) (this : Certificate) : quiet (verify fuel this).
Proof.
  revert this. induction fuel as [|fuel IH]; intros this; simpl.
  - apply quiet_pending.
  - apply verify_body_quiet, checkDelegationAndGetKey_quiet, IH.
Qed.

(** A certificate without delegation is verified against the root key:
    the depth of the calls is one. *)
Lemma verify_without_delegation (fuel : nat) (this : Certificate) :
  delegation (cert this) = None ->
  verify (S fuel) this = verify_body (ret (_rootKey this)) this.
Proof. intros H. simpl. now rewrite H. Qed.

Lemma checkDelegationAndGetKey_fuel (fuel : nat) this d (w : World) :
  _checkDelegationAndGetKey (verify (S fuel)) this d w =
  _checkDelegationAndGetKey (verify 1) this d w.
Proof.
  unfold _checkDelegationAndGetKey. destruct d as [d|]; [|reflexivity].
  apply bindM_ext_k. intros inner w1.
  destruct (delegation (cert inner)) eqn:E; [reflexivity|].
  now rewrite !(verify_without_delegation _ _ E).
Qed.

(** Two levels are all [verify] ever needs: more fuel changes nothing. *)
Lemma verify_fuel (fuel : nat) (this : Certificate) (w : World) :
  verify (S (S fuel)) this w = Certificate_verify this w.
Proof.
  unfold Certificate_verify. cbn [verify]. unfold verify_body.
  apply bindM_ext. apply checkDelegationAndGetKey_fuel.
Qed.

Lemma checkDelegationAndGetKey_settles this d :
  settles (_checkDelegationAndGetKey (verify 1) this d).
Proof.
  unfold _checkDelegationAndGetKey. destruct d as [d|]; [|auto with world].
  apply settles_bind; [auto with world|]. intros inner.
  destruct (delegation (cert inner)) eqn:E; [auto with world|].
  rewrite (verify_without_delegation 0 _ E).
  apply settles_bind; [apply verify_body_settles; auto with world|].
  world_cases.
Qed.

(** ... and with two levels it never stays pending. *)
Lemma Certificate_verify_settles (this : Certificate) : settles (Certificate_verify this).
Proof.
  unfold Certificate_verify. cbn [verify].
  apply verify_body_settles, checkDelegationAndGetKey_settles.
Qed.

Lemma Certificate_create_quiet (options : CreateCertificateOptions) :
  quiet (Certificate_create options).
Proof.
  unfold Certificate_create.
  apply quiet_bind; [apply quiet_lift|]. intros c.
  apply quiet_bind; [apply verify_quiet | intros; apply quiet_ret].
Qed.

End VerifyFacts.

(** ** Certificate verification *)

(** C4: a certificate whose delegation's certificate carries a delegation
    of its own is rejected with the nested-delegation error, before
    anything else is looked at (the world is as it was); the key resolution
    yields no key, whatever the verification of the inner certificate would
    have said. *)
Theorem nested_delegation_rejected (ext : Externals) (this : Certificate)
        (d d' : Delegation) (inner : Cert) (w : World) :
  delegation (cert this) = Some d ->
  cbor_decode_cert (certificate d) = Ok inner ->
  delegation inner = Some d' ->
  Certificate_verify this w
    = (Thrown (CertificateVerificationError NestedDelegation), w) /\
  forall v : Certificate -> M unit,
    _checkDelegationAndGetKey v this (delegation (cert this)) w
      = (Thrown (CertificateVerificationError NestedDelegation), w).
Proof.
  intros Hd Hinner Hnested.
  assert (Hkey : forall v : Certificate -> M unit,
             _checkDelegationAndGetKey v this (delegation (cert this)) w
             = (Thrown (CertificateVerificationError NestedDelegation), w)).
  { intros v. rewrite Hd. unfold _checkDelegationAndGetKey, createUnverified, bindM.
    simpl. rewrite Hinner. simpl. now rewrite Hnested. }
  split; [|exact Hkey].
  unfold Certificate_verify. cbn [verify]. unfold verify_body, bindM.
  now rewrite Hkey.
Qed.

(** C4 at work: the table's entry 0 carries a delegation, so a certificate
    delegating to it is rejected. *)
Lemma nested_delegation_rejected_example :
  let ext := Concrete.externals nested_table in
  let this := cert_with Empty (Some delegation_0) (Minutes 5) false in
  Certificate_verify this Concrete.world0
    = (Thrown (CertificateVerificationError NestedDelegation), Concrete.world0).
Proof.
  intros ext this.
  apply (proj1 (@nested_delegation_rejected ext this delegation_0 delegation_0
                  (mkCert Empty [] (Some delegation_0)) Concrete.world0
                  eq_refl eq_refl eq_refl)).
Defined.

(** Once the key is there and unwraps and the tree has a time, [verify]
    with time verification on reads the clock, decodes the time, checks it
    and checks the signature. *)
Lemma verify_after_key (ext : Externals) (this : Certificate) (w w1 : World)
      (derKey key lookupTime : bytes) :
  _checkDelegationAndGetKey (verify 1) this (delegation (cert this)) w
    = (Returned derKey, w1) ->
  extractDER derKey = Ok key ->
  lookupResultToBuffer (lookup this [SegStr "time"]) = Some lookupTime ->
  disableTimeVerification this = false ->
  Certificate_verify this w =
    let now := Date_now_at (ticks w1) in
    let w' := mkWorld (S (ticks w1)) (creates w1) (reads w1) (awaits w1) (trace w1) in
    match decodeTime lookupTime with
    | Throw e => (Thrown e, w')
    | Ok certTime =>
        match check_time (_maxAgeInMinutes this) now certTime with
        | Throw e => (Thrown e, w')
        | Ok _ =>
            match _blsVerify this key (signature (cert this))
                    (Buffer.concat [domain_sep "ic-state-root";
                                    reconstruct (tree (cert this))]) with
            | Ok true => (Returned tt, w')
            | _ => (Thrown (CertificateVerificationError SignatureFailed), w')
            end
        end
    end.
Proof.
  intros Hres Hkey Htime Hen.
  change (Certificate_verify this w)
    with (verify_body (_checkDelegationAndGetKey (verify 1) this (delegation (cert this)))
                      this w).
  unfold verify_body. unfold bindM at 1. rewrite Hres.
  cbv [bindM ret lift throw Date_now].
  rewrite Hkey, Htime, Hen. cbv [negb].
  destruct (decodeTime lookupTime) as [certTime|e]; [|reflexivity].
  destruct (check_time (_maxAgeInMinutes this) (Date_now_at (ticks w1)) certTime)
    as [[]|e]; [|reflexivity].
  destruct (_blsVerify this key _ _) as [[|]|]; reflexivity.
Qed.

(** With no delegation and a well-formed root key, [verify] is the
    decoding of the time and the time checks, the clock having been read,
    followed by the signature check. *)
Lemma verify_checks_time (ext : Externals) (this : Certificate) (w : World)
      (key lookupTime : bytes) :
  delegation (cert this) = None ->
  extractDER (_rootKey this) = Ok key ->
  lookupResultToBuffer (lookup this [SegStr "time"]) = Some lookupTime ->
  disableTimeVerification this = false ->
  let now := Date_now_at (ticks w) in
  let w' := mkWorld (S (ticks w)) (creates w) (reads w) (awaits w) (trace w) in
  Certificate_verify this w =
    match decodeTime lookupTime with
    | Throw e => (Thrown e, w')
    | Ok certTime =>
        match check_time (_maxAgeInMinutes this) now certTime with
        | Throw e => (Thrown e, w')
        | Ok _ =>
            match _blsVerify this key (signature (cert this))
                    (Buffer.concat [domain_sep "ic-state-root";
                                    reconstruct (tree (cert this))]) with
            | Ok true => (Returned tt, w')
            | _ => (Thrown (CertificateVerificationError SignatureFailed), w')
            end
        end
    end.
Proof.
  intros Hd Hkey Htime Hen now w'.
  apply (@verify_after_key ext this w w (_rootKey this) key lookupTime);
    try assumption.
  rewrite Hd. reflexivity.
Qed.

(** The time checks of [verify] at work on a certificate stamped at the
    present time. *)
Lemma verify_checks_time_example :
  let ext := Concrete.externals [] in
  let this := cert_with (Concrete.time_leaf (Concrete.now * 1000000)) None (Minutes 5) false in
  Certificate_verify this Concrete.world0 = (Returned tt, mkWorld 1 0 0 0 []).
Proof.
  intros ext this.
  rewrite (@verify_checks_time ext this Concrete.world0 (repeat x2a 96)
             (match Leb.lebEncode (Concrete.now * 1000000) with Some b => b | None => [] end));
    vm_compute; reflexivity.
Defined.

(** The time checks on a valid date and a whole number of minutes. *)
Lemma check_time_window (m now t : Z) :
  let lo := (now - m * 60 * 1000)%Z in
  let hi := (now + 5 * 60 * 1000)%Z in
  check_time (Minutes m) now (TimeValue t) =
    if (t <? lo)%Z then Throw (CertificateVerificationError (CertificateTooOld t now))
    else if (hi <? t)%Z then Throw (CertificateVerificationError (CertificateTooNew t now))
    else Ok tt.
Proof.
  intros lo hi. unfold check_time. fold lo. fold hi. now rewrite Z.gtb_ltb.
Qed.

(** C5, as the code has it: what [verify] compares with [Date.now()] is
    [certTime.getTime()], the time value in whole milliseconds of the [Date]
    that [decodeTime] made of the certificate's time. Once the key is
    there, for a valid date and a maximal age of a whole number of minutes,
    the certificate is rejected as too old exactly when the time value is
    below [now - maxAge], as too new exactly when it is not too old and
    above [now + 5 minutes], and the time checks pass (the outcome is that
    of the signature check) exactly when it lies in the closed interval
    between the two, [now] being what the clock then said. *)
Theorem certificate_time_window (ext : Externals) (this : Certificate) (w w1 : World)
        (derKey key lookupTime : bytes) (t m : Z) :
  _checkDelegationAndGetKey (verify 1) this (delegation (cert this)) w
    = (Returned derKey, w1) ->
  extractDER derKey = Ok key ->
  lookupResultToBuffer (lookup this [SegStr "time"]) = Some lookupTime ->
  disableTimeVerification this = false ->
  decodeTime lookupTime = Ok (TimeValue t) ->
  _maxAgeInMinutes this = Minutes m ->
  let now := Date_now_at (ticks w1) in
  let lo := (now - m * 60 * 1000)%Z in
  let hi := (now + 5 * 60 * 1000)%Z in
  let outcome := fst (Certificate_verify this w) in
  let accepted :=
    _blsVerify this key (signature (cert this)) (signed_message (cert this)) = Ok true in
  (outcome = Thrown (CertificateVerificationError (CertificateTooOld t now))
   <-> (t < lo)%Z) /\
  (outcome = Thrown (CertificateVerificationError (CertificateTooNew t now))
   <-> (lo <= t)%Z /\ (hi < t)%Z) /\
  (outcome = Returned tt \/ outcome = Thrown (CertificateVerificationError SignatureFailed)
   <-> (lo <= t <= hi)%Z) /\
  (outcome = Returned tt <-> (lo <= t <= hi)%Z /\ accepted).
Proof.
  intros Hres Hkey Htime Hen Hdec Hage now lo hi outcome accepted.
  subst outcome accepted. unfold signed_message.
  rewrite (@verify_after_key ext this w w1 derKey key lookupTime Hres Hkey Htime Hen).
  cbv zeta. rewrite Hdec, Hage, check_time_window. fold now. fold lo. fold hi.
  assert (Hcases :
            (t < lo)%Z \/ ((lo <= t)%Z /\ (hi < t)%Z) \/ (lo <= t <= hi)%Z) by lia.
  destruct Hcases as [C | [C | C]].
  - assert (E1 : (t <? lo)%Z = true) by (apply Z.ltb_lt; lia).
    rewrite E1. cbn [fst].
    split; [split; [intros _; exact C | reflexivity]|].
    split; [split; [discriminate | lia]|].
    split; [split; [intros [H | H]; discriminate H | lia]|].
    split; [discriminate | lia].
  - assert (E1 : (t <? lo)%Z = false) by (apply Z.ltb_ge; lia).
    assert (E2 : (hi <? t)%Z = true) by (apply Z.ltb_lt; lia).
    rewrite E1, E2. cbn [fst].
    split; [split; [discriminate | lia]|].
    split; [split; [intros _; exact C | reflexivity]|].
    split; [split; [intros [H | H]; discriminate H | lia]|].
    split; [discriminate | lia].
  - assert (E1 : (t <? lo)%Z = false) by (apply Z.ltb_ge; lia).
    assert (E2 : (hi <? t)%Z = false) by (apply Z.ltb_ge; lia).
    rewrite E1, E2.
    destruct (_blsVerify this key _ _) as [[|]|e]; cbn [fst].
    + split; [split; [discriminate | lia]|].
      split; [split; [discriminate | lia]|].
      split; [split; [intros _; exact C | now left]|].
      split; [intros _; split; [exact C | reflexivity] | reflexivity].
    + split; [split; [discriminate | lia]|].
      split; [split; [discriminate | lia]|].
      split; [split; [intros _; exact C | now right]|].
      split; [discriminate | intros [_ H]; discriminate H].
    + split; [split; [discriminate | lia]|].
      split; [split; [discriminate | lia]|].
      split; [split; [intros _; exact C | now right]|].
      split; [discriminate | intros [_ H]; discriminate H].
Qed.

(** C5 on a certificate stamped at the present time, with five minutes of
    maximal age: its time checks pass and it is verified. *)
Lemma certificate_time_window_example :
  let ext := Concrete.externals [] in
  fst (Certificate_verify (stamped (Concrete.now * 1000000) 5) Concrete.world0)
    = Returned tt.
Proof.
  intros ext.
  assert (Henc : exists b, Leb.lebEncode (Concrete.now * 1000000) = Some b)
    by (vm_compute; eauto).
  destruct Henc as [b Hb].
  assert (Hdec : Leb.lebDecode b = Some (Concrete.now * 1000000)%Z)
    by (vm_compute in Hb; injection Hb as <-; vm_compute; reflexivity).
  assert (Htime : lookupResultToBuffer
                    (lookup (stamped (Concrete.now * 1000000) 5) [SegStr "time"]) = Some b)
    by (unfold stamped, cert_with, lookup, Concrete.time_leaf; cbn [cert tree];
        rewrite Hb; reflexivity).
  assert (Hd : decodeTime b = Ok (TimeValue Concrete.now)).
  { change (Concrete.decodeTime_by Concrete.whole_milliseconds b
            = Ok (TimeValue Concrete.now)).
    unfold Concrete.decodeTime_by. rewrite Hdec. reflexivity. }
  assert (Hres : _checkDelegationAndGetKey (verify 1) (stamped (Concrete.now * 1000000) 5)
                   (delegation (cert (stamped (Concrete.now * 1000000) 5))) Concrete.world0
                 = (Returned Concrete.rootKey, Concrete.world0)) by reflexivity.
  assert (Hkey : extractDER Concrete.rootKey = Ok (repeat x2a 96))
    by (vm_compute; reflexivity).
  assert (Hen : disableTimeVerification (stamped (Concrete.now * 1000000) 5) = false)
    by reflexivity.
  assert (Hage : _maxAgeInMinutes (stamped (Concrete.now * 1000000) 5) = Minutes 5)
    by reflexivity.
  pose proof (@certificate_time_window ext (stamped (Concrete.now * 1000000) 5)
                Concrete.world0 Concrete.world0 Concrete.rootKey (repeat x2a 96) b
                Concrete.now 5 Hres Hkey Htime Hen Hd Hage) as T.
  cbv zeta in T. destruct T as (_ & _ & _ & H).
  apply H. split; [vm_compute; split; discriminate | reflexivity].
Defined.

(** What [verify] makes of a stamped certificate under a reading of
    nanoseconds: the time checks on the date the reading gives. *)
Lemma verdict_eq (toDate : Z -> JsDate) (now m ns : Z) (b : bytes) :
  Leb.lebEncode ns = Some b ->
  Leb.lebDecode b = Some ns ->
  verdict toDate now m ns =
    match check_time (Minutes m) now (toDate ns) with
    | Throw e => Thrown e
    | Ok _ => Returned tt
    end.
Proof.
  intros Henc Hdec. unfold verdict.
  set (ext := Concrete.externals_with toDate now).
  assert (Htime : lookupResultToBuffer (lookup (stamped ns m) [SegStr "time"]) = Some b)
    by (unfold stamped, cert_with, lookup, Concrete.time_leaf; cbn [cert tree];
        rewrite Henc; reflexivity).
  assert (Hres : _checkDelegationAndGetKey (verify 1) (stamped ns m)
                   (delegation (cert (stamped ns m))) Concrete.world0
                 = (Returned Concrete.rootKey, Concrete.world0)) by reflexivity.
  assert (Hkey : extractDER Concrete.rootKey = Ok (repeat x2a 96))
    by (vm_compute; reflexivity).
  assert (Hen : disableTimeVerification (stamped ns m) = false) by reflexivity.
  rewrite (@verify_after_key ext (stamped ns m)
             Concrete.world0 Concrete.world0 Concrete.rootKey (repeat x2a 96) b
             Hres Hkey Htime Hen).
  cbv zeta.
  change (decodeTime b) with (Concrete.decodeTime_by toDate b).
  unfold Concrete.decodeTime_by. rewrite Hdec.
  change (Date_now_at (ticks Concrete.world0)) with now.
  change (_maxAgeInMinutes (stamped ns m)) with (Minutes m).
  destruct (check_time (Minutes m) now (toDate ns)) as [[]|e]; reflexivity.
Qed.

(** C5 as stated fails: a [Date] holds whole milliseconds, so no reading
    of the certificate's nanoseconds that keeps the order of time gives
    [verify] the window of the claim. At the clock readings [now] and
    [now + 10 minutes + 1 ms], with five minutes of maximal age, the claim
    wants the time one nanosecond after [now + 5 minutes] too new, so read
    as a later millisecond, and the later time one nanosecond before
    [now + 5 minutes + 1 ms] too old, so read as an earlier one. *)
Lemma no_reading_gives_a_nanosecond_window :
  ~ exists toDate : Z -> JsDate, keeps_order toDate /\ nanosecond_window toDate.
Proof.
  intros (toDate & Hmono & Hwin).
  set (hi := ((Concrete.now + 5 * 60 * 1000) * 1000000)%Z).
  set (lo := ((Concrete.now + 600001 - 5 * 60 * 1000) * 1000000)%Z).
  destruct (Hwin Concrete.now 5%Z ltac:(lia) ltac:(vm_compute; reflexivity))
    as (_ & _ & _ & Hnew).
  destruct (Hwin (Concrete.now + 600001)%Z 5%Z ltac:(lia) ltac:(vm_compute; reflexivity))
    as (_ & Hold & _ & _).
  cbv zeta in Hnew, Hold. fold hi in Hnew. fold lo in Hold.
  assert (E1 : exists b, Leb.lebEncode (hi + 1) = Some b /\ Leb.lebDecode b = Some (hi + 1)%Z)
    by (vm_compute; eexists; split; reflexivity).
  assert (E2 : exists b, Leb.lebEncode (lo - 1) = Some b /\ Leb.lebDecode b = Some (lo - 1)%Z)
    by (vm_compute; eexists; split; reflexivity).
  destruct E1 as (b1 & Henc1 & Hdec1). destruct E2 as (b2 & Henc2 & Hdec2).
  rewrite (verdict_eq toDate _ _ Henc1 Hdec1) in Hnew.
  rewrite (verdict_eq toDate _ _ Henc2 Hdec2) in Hold.
  destruct Hnew as (t1' & n1 & Hnew). destruct Hold as (t2' & n2 & Hold).
  destruct (toDate (hi + 1)%Z) as [t1|] eqn:D1; [|discriminate Hnew].
  destruct (toDate (lo - 1)%Z) as [t2|] eqn:D2; [|discriminate Hold].
  assert (Hle : (t1 <= t2)%Z) by (apply (Hmono (hi + 1)%Z (lo - 1)%Z); [vm_compute; discriminate | assumption | assumption]).
  rewrite check_time_window in Hnew, Hold. cbv zeta in Hnew, Hold.
  destruct (t1 <? Concrete.now - 5 * 60 * 1000)%Z eqn:A1; [discriminate Hnew|].
  destruct (Concrete.now + 5 * 60 * 1000 <? t1)%Z eqn:A2; [|discriminate Hnew].
  destruct (t2 <? Concrete.now + 600001 - 5 * 60 * 1000)%Z eqn:B1.
  - apply Z.ltb_lt in A2, B1. unfold Concrete.now in *. lia.
  - destruct (Concrete.now + 600001 + 5 * 60 * 1000 <? t2)%Z; discriminate Hold.
Qed.

(** C10, as the code has it: a certificate with no value at [['time']] is
    never verified, whether time verification is disabled or not. The key
    comes first: once the delegation check has given a key and the key has
    unwrapped, the error is the missing-time error, and the world is the one
    the key resolution left, the clock not having been read since; when the
    delegation check or the unwrapping throws, that exception is the one
    raised. *)
Theorem missing_time_rejected (ext : Externals) (this : Certificate) (w : World) :
  lookupResultToBuffer (lookup this [SegStr "time"]) = None ->
  fst (Certificate_verify this w) <> Returned tt /\
  (forall derKey key w',
      _checkDelegationAndGetKey (verify 1) this (delegation (cert this)) w
        = (Returned derKey, w') ->
      extractDER derKey = Ok key ->
      Certificate_verify this w
        = (Thrown (CertificateVerificationError MissingTime), w')) /\
  (forall e w',
      _checkDelegationAndGetKey (verify 1) this (delegation (cert this)) w
        = (Thrown e, w') ->
      Certificate_verify this w = (Thrown e, w')) /\
  (forall derKey e w',
      _checkDelegationAndGetKey (verify 1) this (delegation (cert this)) w
        = (Returned derKey, w') ->
      extractDER derKey = Throw e ->
      Certificate_verify this w = (Thrown e, w')).
Proof.
  intros Htime.
  change (Certificate_verify this w)
    with (verify_body (_checkDelegationAndGetKey (verify 1) this (delegation (cert this)))
                      this w).
  generalize (_checkDelegationAndGetKey (verify 1) this (delegation (cert this))).
  intros resolve. cbv [verify_body bindM].
  destruct (resolve w) as [[derKey|e|] w1] eqn:Ekey.
  - destruct (extractDER derKey) as [key|e] eqn:Eder; cbv [lift ret throw].
    + rewrite Htime. repeat split; try discriminate.
      * intros ? ? ? [= <- <-] _. reflexivity.
      * intros ? ? ? [= <- <-] H. rewrite Eder in H. discriminate.
    + repeat split; try discriminate.
      * intros ? ? ? [= <- <-] H. rewrite Eder in H. discriminate.
      * intros ? ? ? [= <- <-] H. rewrite Eder in H. now injection H as <-.
  - repeat split; try discriminate. intros ? ? [= <- <-]. reflexivity.
  - repeat split; discriminate.
Qed.

(** C10 at work: no time in the tree, time verification disabled, and the
    error is the missing-time error. *)
Lemma missing_time_rejected_example :
  let ext := Concrete.externals [] in
  let this := cert_with Empty None (Minutes 5) true in
  disableTimeVerification this = true /\
  lookupResultToBuffer (lookup this [SegStr "time"]) = None /\
  Certificate_verify this Concrete.world0
    = (Thrown (CertificateVerificationError MissingTime), Concrete.world0).
Proof.
  intros ext this.
  split; [reflexivity|]. split; [reflexivity|].
  apply (proj1 (proj2 (@missing_time_rejected ext this Concrete.world0 eq_refl))
           Concrete.rootKey (repeat x2a 96) Concrete.world0).
  - reflexivity.
  - vm_compute. reflexivity.
Defined.

(** C10 as stated fails: with no time in the tree, the error raised is not
    always the missing-time error. A nested delegation is reported first,
    and so is a root key that does not unwrap. *)
Lemma missing_time_is_not_always_the_error :
  let ext := Concrete.externals nested_table in
  let nested := cert_with Empty (Some delegation_0) (Minutes 5) true in
  lookupResultToBuffer (lookup nested [SegStr "time"]) = None /\
  Certificate_verify nested Concrete.world0
    = (Thrown (CertificateVerificationError NestedDelegation), Concrete.world0) /\
  lookupResultToBuffer (lookup keyless_certificate [SegStr "time"]) = None /\
  Certificate_verify keyless_certificate Concrete.world0
    = (Thrown (DERTypeError (WrongLength 133)), Concrete.world0).
Proof. vm_compute. repeat split. Qed.

(** ** Polling *)

Section PollingFacts.
Context {ext : Externals}.
Variable agent : Agent.
Variable canisterId : Principal.t.
Variable requestId : bytes.
Variable strategy : PollStrategy.
Variable blsVerify : option VerifyFunc.

(** [pollForResponse] is an observation followed by the switch. *)
Lemma pollForResponse_step (fuel : nat) (request : option Request) (w : World) :
  pollForResponse (S fuel) agent canisterId requestId strategy request blsVerify w =
    match observe agent canisterId requestId blsVerify request w with
    | (Returned (currentRequest, cert, status), w1) =>
        dispatch agent canisterId requestId strategy blsVerify fuel
                 currentRequest cert status w1
    | (Thrown e, w1) => (Thrown e, w1)
    | (Pending, w1) => (Pending, w1)
    end.
Proof.
  cbn [pollForResponse]. unfold observe, dispatch, non_terminal, status_of, request_status_path.
  unfold Path, bindM, ret, throw. cbv beta zeta.
  destruct request as [r|]; [|destruct (createReadStateRequest agent) as [create|]].
  all: repeat (cbv beta iota; try reflexivity;
               match goal with
               | |- context [call_createReadStateRequest ?c ?p ?w] =>
                   destruct (call_createReadStateRequest c p w) as [[?| |] ?]
               | |- context [call_readState ?a ?c ?p ?r ?w] =>
                   destruct (call_readState a c p r w) as [[?| |] ?]
               | |- context [rootKey agent] => destruct (rootKey agent)
               | |- context [Certificate_create ?o ?w] =>
                   destruct (Certificate_create o w) as [[?| |] ?]
               end).
Qed.

End PollingFacts.

Lemma non_terminal_inv (status : string) :
  non_terminal status = true ->
  String.eqb status RequestStatusResponseStatus.Replied = false.
Proof.
  unfold non_terminal. rewrite !orb_true_iff, !String.eqb_eq.
  intros [[-> | ->] | ->]; reflexivity.
Qed.

Section PollingRunFacts.
Context {ext : Externals}.
Variable agent : Agent.
Variable canisterId : Principal.t.
Variable requestId : bytes.
Variable strategy : PollStrategy.
Variable blsVerify : option VerifyFunc.

Lemma observe_facts (request : option Request) (w w1 : World)
      (cur : option Request) (cert : Certificate) (status : string) :
  observe agent canisterId requestId blsVerify request w
    = (Returned (cur, cert, status), w1) ->
  status = status_of requestId cert /\
  awaits w1 = awaits w /\
  settled agent cur /\
  exists events,
    trace w1 = trace w ++ events /\
    requests_read events = [cur] /\
    statuses_awaited events = [] /\
    List.length (requests_created events) <= 1 /\
    (settled agent request -> cur = request /\ requests_created events = []).
Proof.
  unfold observe. unfold bindM at 1.
  set (path := request_status_path requestId).
  assert (Hread : forall cur0 w0 events0,
             awaits w0 = awaits w -> trace w0 = trace w ++ events0 ->
             bindM (call_readState agent canisterId [path] cur0)
                   (fun certificate =>
                      match rootKey agent with
                      | None => throw RootKeyNotInitialized
                      | Some agent_rootKey =>
                          bindM (Certificate_create
                                   (mkOptions certificate agent_rootKey canisterId
                                              blsVerify None None))
                                (fun cert => ret (cur0, cert, status_of requestId cert))
                      end) w0 = (Returned (cur, cert, status), w1) ->
             cur = cur0 /\ status = status_of requestId cert /\ awaits w1 = awaits w /\
             trace w1 = trace w ++ events0 ++ [ReadState canisterId cur0]).
  { intros cur0 w0 events0 Ha Ht. unfold bindM at 1. unfold call_readState.
    destruct (readState agent (reads w0) canisterId [path] cur0) as [certificate|e];
      [|discriminate].
    destruct (rootKey agent) as [rk|]; [|discriminate].
    unfold bindM.
    pose proof (Certificate_create_quiet
                  (mkOptions certificate rk canisterId blsVerify None None)
                  (mkWorld (ticks w0) (creates w0) (S (reads w0)) (awaits w0)
                           (trace w0 ++ [ReadState canisterId cur0]))) as Q.
    destruct (Certificate_create _ _) as [[c| |] w3]; try discriminate.
    destruct Q as (_ & _ & Qa & Qt). simpl in Qa, Qt.
    intros [= <- <- <- <-]. repeat split; try congruence.
    rewrite Qt, Ht. now rewrite app_assoc. }
  destruct request as [r|].
  - simpl. intros H. apply (Hread (Some r) w []) in H; [|reflexivity|now rewrite app_nil_r].
    destruct H as (-> & -> & Ha & Ht). repeat split; try assumption.
    + left. discriminate.
    + exists [ReadState canisterId (Some r)]. repeat split; auto.
  - destruct (createReadStateRequest agent) as [create|] eqn:Ecreate.
    + unfold bindM at 1. unfold call_createReadStateRequest.
      destruct (create (creates w) [path]) as [r|e]; [|discriminate].
      simpl. intros H.
      apply (Hread (Some r) _ [CreatedRequest r]) in H; [|reflexivity|reflexivity].
      destruct H as (-> & -> & Ha & Ht). repeat split; try assumption.
      * left. discriminate.
      * exists [CreatedRequest r; ReadState canisterId (Some r)]. repeat split; auto.
        -- destruct H as [S | S]; [now destruct S | congruence].
        -- destruct H as [S | S]; [now destruct S | congruence].
    + simpl. intros H. apply (Hread None w []) in H; [|reflexivity|now rewrite app_nil_r].
      destruct H as (-> & -> & Ha & Ht). repeat split; try assumption.
      * now right.
      * exists [ReadState canisterId None]. repeat split; auto.
Qed.

End PollingRunFacts.

Lemma call_strategy_facts (strategy : PollStrategy) (canisterId : Principal.t)
      (requestId : bytes) (status : string) (w1 w2 : World) :
  call_strategy strategy canisterId requestId status w1 = (Returned tt, w2) ->
  awaits w2 = S (awaits w1) /\ trace w2 = trace w1 ++ [Awaited status].
Proof.
  unfold call_strategy. destruct (strategy _ _ _ _); [|discriminate].
  intros [= <-]. split; reflexivity.
Qed.

(** C9: when polling reads [n] certificates with a non-terminal status
    and then one that says "replied", [pollForResponse] returns that
    certificate with the bytes at [['request_status', requestId, 'reply']];
    when it says "rejected" it throws the error with the first byte of the
    reject code and the text of the reject message, and when it says "done"
    the done-without-reply error. In every case the strategy was awaited
    [n] times, each of the [n + 1] reads was given the same request, the one
    of the first iteration, and at most one request was created (none when
    the caller supplied one). Any number of iterations above [n] will do. *)
Theorem pollForResponse_after_retries (ext : Externals) (agent : Agent)
        (canisterId : Principal.t) (requestId : bytes) (strategy : PollStrategy)
        (blsVerify : option VerifyFunc)
        (n : nat) (request : option Request) (w w' : World)
        (cert : Certificate) (status : string) :
  Observed agent canisterId requestId strategy blsVerify n request w cert status w' ->
  forall fuel, n < fuel ->
  let path := request_status_path requestId in
  let result :=
    pollForResponse fuel agent canisterId requestId strategy request blsVerify w in
  (status = RequestStatusResponseStatus.Replied ->
   result = (Returned (cert, lookupResultToBuffer (lookup cert (path ++ [SegStr "reply"]))),
             w')) /\
  (status = RequestStatusResponseStatus.Rejected ->
   result =
     (Thrown (CallRejected requestId
                (match lookupResultToBuffer (lookup cert (path ++ [SegStr "reject_code"])) with
                 | Some buf => hd_error buf
                 | None => None
                 end)
                (match lookupResultToBuffer (lookup cert (path ++ [SegStr "reject_message"])) with
                 | Some buf => TextDecoder_decode buf
                 | None => EmptyString
                 end)),
      w')) /\
  (status = RequestStatusResponseStatus.Done ->
   result = (Thrown (CallDoneWithoutReply requestId), w')) /\
  awaits w' = awaits w + n /\
  exists (currentRequest : option Request) (events : list Event),
    trace w' = trace w ++ events /\
    requests_read events = repeat currentRequest (S n) /\
    List.length (statuses_awaited events) = n /\
    List.length (requests_created events) <= 1 /\
    (settled agent request -> currentRequest = request /\ requests_created events = []).
Proof.
  intros Hrun. induction Hrun as
      [request w cur cert status w' Hobs
      |n request w cur cert status w1 w2 cert' status' w' Hobs Hnt Hstrat Hrun IH];
    intros fuel Hfuel path result; subst result;
    (destruct fuel as [|fuel]; [lia|]); rewrite pollForResponse_step, Hobs;
    pose proof Hobs as Hf; apply observe_facts in Hf;
    destruct Hf as (_ & Ha & Hset & events & Ht & Hr & Hs & Hc & Hsame).
  - unfold dispatch. fold path.
    split; [intros ->; reflexivity|]. split; [intros ->; reflexivity|].
    split; [intros ->; reflexivity|]. split; [lia|].
    exists cur, events. rewrite Hs. auto.
  - unfold dispatch. rewrite (@non_terminal_inv status Hnt), Hnt.
    unfold bindM. rewrite Hstrat.
    pose proof Hstrat as Hf. apply call_strategy_facts in Hf. destruct Hf as (Ha2 & Ht2).
    specialize (IH fuel ltac:(lia)). cbv zeta in IH.
    destruct IH as (Hrep & Hrej & Hdone & Ha' & cur' & events' & Ht' & Hr' & Hs' & Hc' & Hsame').
    destruct (Hsame' Hset) as (-> & Hnone).
    split; [exact Hrep|]. split; [exact Hrej|]. split; [exact Hdone|]. split; [lia|].
    exists cur, (events ++ [Awaited status] ++ events').
    split; [rewrite Ht', Ht2, Ht; now rewrite <- !app_assoc|].
    unfold requests_read, statuses_awaited, requests_created in *.
    rewrite !flat_map_app, !length_app. simpl flat_map. rewrite ?app_nil_l.
    rewrite Hr, Hr', Hs, Hs', Hnone. simpl. rewrite app_nil_r.
    repeat split; try lia.
    + destruct (Hsame H) as [-> _]. reflexivity.
    + destruct (Hsame H) as [_ ->]. reflexivity.
Qed.

(** C9 on the scenarios. "Poll Replied": two "processing" then "replied"
    with the reply 0xAA 0xBB; the poll returns the third certificate and
    the reply, the strategy has been awaited twice, one request was created
    and the three reads were given it. "Poll Rejected": the first
    certificate says "rejected" with code 4 and the message "canister not
    found", and the poll throws the error that carries them. *)
Lemma pollForResponse_replied_after_two_retries :
  Observed (ext := PollExample.ext) PollExample.agent PollExample.canister PollExample.RID
           PollExample.strategy None 2 None Concrete.world0
           (PollExample.verified 2) "replied" (PollExample.after_read 3) /\
  pollForResponse (ext := PollExample.ext) 3 PollExample.agent PollExample.canister
                  PollExample.RID PollExample.strategy None None Concrete.world0
    = (Returned (PollExample.verified 2, Some [xaa; xbb]), PollExample.after_read 3) /\
  awaits (PollExample.after_read 3) = 2 /\
  requests_read (trace (PollExample.after_read 3)) = repeat PollExample.created 3 /\
  pollForResponse (ext := Concrete.externals PollExample.table_rejected) 1
                  PollExample.agent PollExample.canister
                  PollExample.RID PollExample.strategy None None Concrete.world0
    = (Thrown (CallRejected PollExample.RID (Some x04) "canister not found"),
       PollExample.after_read 1).
Proof.
  assert (Hrun : Observed (ext := PollExample.ext) PollExample.agent PollExample.canister
                          PollExample.RID PollExample.strategy None 2 None Concrete.world0
                          (PollExample.verified 2) "replied" (PollExample.after_read 3)).
  { apply (@observed_after_retry PollExample.ext _ _ _ _ _ 1 None Concrete.world0
             PollExample.created (PollExample.verified 0) "processing"
             (PollExample.after_read 1) (PollExample.after_await 1));
      [vm_compute; reflexivity | reflexivity | reflexivity |].
    apply (@observed_after_retry PollExample.ext _ _ _ _ _ 0 PollExample.created
             (PollExample.after_await 1)
             PollExample.created (PollExample.verified 1) "processing"
             (PollExample.after_read 2) (PollExample.after_await 2));
      [vm_compute; reflexivity | reflexivity | reflexivity |].
    apply (@observed_now PollExample.ext _ _ _ _ _ PollExample.created
             (PollExample.after_await 2) PollExample.created);
      vm_compute; reflexivity. }
  assert (Hrej : Observed (ext := Concrete.externals PollExample.table_rejected)
                          PollExample.agent PollExample.canister
                          PollExample.RID PollExample.strategy None 0 None Concrete.world0
                          PollExample.rejected "rejected" (PollExample.after_read 1)).
  { apply (@observed_now (Concrete.externals PollExample.table_rejected) _ _ _ _ _ None
             Concrete.world0 PollExample.created);
      vm_compute; reflexivity. }
  pose proof (@pollForResponse_after_retries PollExample.ext _ _ _ _ _ _ _ _ _ _ _
                Hrun 3 (le_n 3)) as T.
  pose proof (@pollForResponse_after_retries (Concrete.externals PollExample.table_rejected)
                _ _ _ _ _ _ _ _ _ _ _ Hrej 1 (le_n 1)) as R.
  cbv zeta in T, R.
  destruct T as (Hreplied & _ & _ & Hawaits & _).
  destruct R as (_ & Hrejected & _).
  split; [exact Hrun|].
  split; [rewrite (Hreplied eq_refl); vm_compute; reflexivity|].
  split; [reflexivity|]. split; [reflexivity|].
  rewrite (Hrejected eq_refl). vm_compute. reflexivity.
Defined.

(** * Further properties *)

(** ** Lookup: what a found value is, and how paths compose *)

Lemma find_label_found (l : bytes) (t sub : HashTree) :
  find_label l t = LFound sub -> In (Labeled l sub) (flatten_forks t).
Proof.
  induction t as [|t1 IH1 t2 IH2|l0 s _| |]; simpl; try discriminate.
  - intros H. apply in_or_app.
    destruct (find_label l t1) eqn:E1.
    + left. apply IH1. congruence.
    + discriminate.
    + right. apply IH2. destruct (find_label l t2); congruence.
    + right. apply IH2. destruct (find_label l t2); congruence.
    + discriminate.
  - destruct (isBufferGreaterThan l l0); [discriminate|].
    destruct (Buffer.bufEquals l l0) eqn:E; [|discriminate].
    apply bufEquals_true_iff in E. intros [= <-]. left. now subst.
Qed.

(** Where a lookup that finds something ends. *)
Lemma lookup_path_ends (path : list PathSegment) (t : HashTree) (v : LookupValue) :
  lookup_path path t = Found v ->
  exists s,
    resolves (map segment_label path) t s /\
    match v with
    | VTree found => found = s /\ (forall c, s <> Leaf c)
    | VBuffer _ => exists c, s = Leaf c
    end.
Proof.
  revert t v. induction path as [|seg rest IH]; intros t v; simpl.
  - intros Hv. exists t. split; [reflexivity|].
    destruct t; injection Hv as <-; try (split; [reflexivity | discriminate]).
    eauto.
  - destruct (find_label (segment_label seg) t) as [sub| | | |] eqn:E; try discriminate.
    intros Hrest. destruct (IH _ _ Hrest) as (s & Hres & Hv). exists s.
    split; [|exact Hv]. exists sub. split; [now apply find_label_found | exact Hres].
Qed.

(** Whatever [lookup_path] finds is in the tree, at the path: the path
    ends at a node that is reached by taking, for each segment, a [Labeled]
    node of that label among the flattened forks of the tree reached so
    far. What is found is that node itself when it is not a leaf, and a
    buffer exactly when it is a leaf, so that [lookupResultToBuffer] gives
    bytes only for a path that ends at a leaf. Nothing is said here of the
    bytes the buffer holds. *)
Theorem lookup_path_sound (path : list PathSegment) (t : HashTree) (v : LookupValue) :
  lookup_path path t = Found v ->
  exists s,
    resolves (map segment_label path) t s /\
    match v with
    | VTree found => found = s /\ (forall c, s <> Leaf c)
    | VBuffer _ => exists c, s = Leaf c
    end /\
    ((exists b, lookupResultToBuffer (lookup_path path t) = Some b)
     <-> exists c, s = Leaf c).
Proof.
  intros Hv. destruct (lookup_path_ends path t Hv) as (s & Hres & Hs).
  exists s. split; [exact Hres|]. split; [exact Hs|].
  rewrite Hv. destruct v as [b|found]; simpl.
  - split; [intros _; exact Hs | intros _; eauto].
  - destruct Hs as [_ Hleaf]. split.
    + intros [b Hb]. discriminate Hb.
    + intros [c Hc]. destruct (Hleaf c Hc).
Qed.

(** In the tree of "a" and "c", the path ["c"] ends at a leaf under the
    node labeled "c". *)
Lemma lookup_path_sound_example :
  exists v, lookup_path [SegStr "c"] tree_a_c = Found v /\
  exists s, resolves [TextEncoder_encode "c"] tree_a_c s /\ exists c, s = Leaf c.
Proof.
  exists (VBuffer [x02]). split; [reflexivity|].
  destruct (@lookup_path_sound [SegStr "c"] tree_a_c (VBuffer [x02]) eq_refl)
    as (s & Hres & Hs & _).
  exists s. split; [exact Hres | exact Hs].
Defined.

(** A lookup along [p ++ q] is the lookup along [q] from where [p] ends;
    once a prefix of the path is absent or unknown, so is every path that
    extends it. *)
Theorem lookup_path_app (p q : list PathSegment) (t : HashTree) :
  lookup_path (p ++ q) t =
    match lookup_path p t with
    | Found v => lookup_path q (node_of v)
    | Absent => Absent
    | Unknown => Unknown
    end.
Proof.
  revert t. induction p as [|seg rest IH]; intros t; simpl.
  - destruct t; reflexivity.
  - destruct (find_label (segment_label seg) t); try reflexivity. apply IH.
Qed.

Lemma find_label_unknown (l : bytes) (t : HashTree) :
  has_pruned t = false ->
  find_label l t <> LUnknown /\
  (forall sub, find_label l t = LFound sub -> has_pruned sub = false).
Proof.
  induction t as [|t1 IH1 t2 IH2|l0 s _| |]; simpl; intros Hp;
    try (split; [discriminate | intros; discriminate]).
  - apply orb_false_iff in Hp. destruct Hp as [H1 H2].
    destruct (IH1 H1) as [U1 F1]. destruct (IH2 H2) as [U2 F2].
    destruct (find_label l t1) eqn:E1; try contradiction.
    + split; [discriminate|]. intros sub [= <-]. now apply F1.
    + split; [discriminate | intros; discriminate].
    + destruct (find_label l t2) eqn:E2; try contradiction;
        (split; [discriminate|]); intros sub E; try discriminate.
      injection E as <-. now apply F2.
    + split; [discriminate | intros; discriminate].
  - destruct (isBufferGreaterThan l l0); [split; [discriminate | intros; discriminate]|].
    destruct (Buffer.bufEquals l l0); (split; [discriminate|]); intros sub E;
      try discriminate.
    now injection E as <-.
Qed.

(** Only pruning makes a lookup unknown: in a tree without [Pruned] nodes
    every path is found or absent. *)
Theorem lookup_path_unknown_needs_pruned (path : list PathSegment) (t : HashTree) :
  has_pruned t = false -> lookup_path path t <> Unknown.
Proof.
  revert t. induction path as [|seg rest IH]; intros t Hp; simpl.
  - destruct t; discriminate.
  - destruct (find_label_unknown (segment_label seg) t Hp) as [U F].
    destruct (find_label (segment_label seg) t) eqn:E; try discriminate; try contradiction.
    apply IH. now apply F.
Qed.

(** Nothing is pruned in the tree of "a" and "c": the lookup of ["b", "x"]
    is not unknown. *)
Lemma lookup_path_unknown_needs_pruned_example :
  has_pruned tree_a_c = false /\ lookup_path [SegStr "b"; SegStr "x"] tree_a_c <> Unknown.
Proof.
  split; [reflexivity|].
  apply (@lookup_path_unknown_needs_pruned [SegStr "b"; SegStr "x"] tree_a_c eq_refl).
Defined.

(** ** Flattened forks *)

(** [flatten_forks] leaves no [Fork] and no [Empty] in its result, does
    not depend on how the forks are nested, and flattening the trees of its
    result again changes nothing. *)
Theorem flatten_forks_shape (t : HashTree) :
  Forall (fun s => match s with Fork _ _ | Empty => False | _ => True end)
         (flatten_forks t) /\
  (forall a b, flatten_forks (Fork (Fork t a) b) = flatten_forks (Fork t (Fork a b))) /\
  flatten_forks (Fork Empty t) = flatten_forks t /\
  flatten_forks (Fork t Empty) = flatten_forks t /\
  flat_map flatten_forks (flatten_forks t) = flatten_forks t.
Proof.
  split; [|split; [|split; [|split]]].
  - induction t; simpl; try (repeat constructor).
    apply Forall_app. now split.
  - intros a b. simpl. now rewrite app_assoc.
  - reflexivity.
  - simpl. apply app_nil_r.
  - induction t as [|t1 IH1 t2 IH2| | |]; simpl; try reflexivity.
    now rewrite flat_map_app, IH1, IH2.
Qed.

(** ** The label search on a sorted level of labels *)

Lemma label_lt_irrefl (a : bytes) : ~ label_lt a a.
Proof. unfold label_lt. rewrite compare_refl. lia. Qed.

Lemma label_lt_trans (a b c : bytes) : label_lt a b -> label_lt b c -> label_lt a c.
Proof.
  unfold label_lt. intros Hab Hbc.
  assert (H : (Buffer.compare a c <= 0)%Z) by (apply (compare_trans a b c); lia).
  destruct (Z.eq_dec (Buffer.compare a c) 0) as [E|E]; [|lia].
  apply compare_eq in E. subst c. rewrite (compare_antisym a b) in Hbc. lia.
Qed.

Lemma StronglySorted_app_inv (A : Type) (R : A -> A -> Prop) (l1 l2 : list A) :
  StronglySorted R (l1 ++ l2) ->
  StronglySorted R l1 /\ StronglySorted R l2 /\
  (forall x y, In x l1 -> In y l2 -> R x y).
Proof.
  induction l1 as [|a l1 IH]; simpl; intros H.
  - repeat split; [constructor | exact H | intros x y []].
  - inversion H as [|? ? Hs Hf]; subst. destruct (IH Hs) as (S1 & S2 & Hx).
    rewrite Forall_app in Hf. destruct Hf as [F1 F2]. rewrite Forall_forall in F2.
    repeat split; [now constructor | exact S2 |].
    intros x y [<- | Hin] Hy; [now apply F2 | now apply Hx].
Qed.

Lemma labels_of_fork (t1 t2 : HashTree) :
  labels_of (Fork t1 t2) = labels_of t1 ++ labels_of t2.
Proof. unfold labels_of. simpl. apply flat_map_app. Qed.

Lemma labels_of_in (l : bytes) (t : HashTree) :
  In l (labels_of t) <-> exists sub, In (Labeled l sub) (flatten_forks t).
Proof.
  unfold labels_of. rewrite in_flat_map. split.
  - intros [n [Hn Hl]]. destruct n; simpl in Hl; try contradiction.
    destruct Hl as [<- | []]. eauto.
  - intros [sub H]. exists (Labeled l sub). split; [exact H | now left].
Qed.

Lemma labels_only_nonempty (t : HashTree) :
  labels_only t = true -> exists l, In l (labels_of t).
Proof.
  induction t as [|t1 IH1 t2 _|l s _| |]; simpl; try discriminate.
  - intros H. apply andb_true_iff in H. destruct (IH1 (proj1 H)) as [l Hl].
    exists l. rewrite labels_of_fork. apply in_or_app. now left.
  - intros _. exists l. now left.
Qed.

(** On a sorted level of labels on which the byte comparison is right,
    what [find_label] answers says where the label stands. *)
Lemma find_label_classified (q : bytes) (t : HashTree) :
  labels_only t = true ->
  StronglySorted label_lt (labels_of t) ->
  (forall l, In l (labels_of t) -> comparison_right q l) ->
  match find_label q t with
  | LFound sub => In (Labeled q sub) (flatten_forks t)
  | LLess => forall l, In l (labels_of t) -> label_lt q l
  | LGreater => forall l, In l (labels_of t) -> label_lt l q
  | LAbsent =>
      ~ In q (labels_of t) /\
      exists l1 l2, In l1 (labels_of t) /\ In l2 (labels_of t) /\
                    label_lt l1 q /\ label_lt q l2
  | LUnknown => False
  end.
Proof.
  induction t as [|t1 IH1 t2 IH2|l0 s _| |]; try discriminate.
  - intros Hshape Hsorted Hright. simpl in Hshape. apply andb_true_iff in Hshape.
    destruct Hshape as [Hs1 Hs2]. rewrite labels_of_fork in Hsorted.
    destruct (StronglySorted_app_inv _ _ Hsorted) as (S1 & S2 & H12).
    assert (R1 : forall l, In l (labels_of t1) -> comparison_right q l)
      by (intros l Hl; apply Hright; rewrite labels_of_fork; apply in_or_app; now left).
    assert (R2 : forall l, In l (labels_of t2) -> comparison_right q l)
      by (intros l Hl; apply Hright; rewrite labels_of_fork; apply in_or_app; now right).
    specialize (IH1 Hs1 S1 R1). specialize (IH2 Hs2 S2 R2).
    destruct (labels_only_nonempty _ Hs1) as [la Hla].
    destruct (labels_only_nonempty _ Hs2) as [lb Hlb].
    simpl. destruct (find_label q t1) eqn:E1.
    + apply in_or_app. now left.
    + destruct IH1 as (Hnot & l1 & l2 & H1 & H2 & L1 & L2).
      assert (Hb : forall l, In l (labels_of t2) -> label_lt q l)
        by (intros l Hl; apply (label_lt_trans L2); now apply H12).
      split.
      * rewrite labels_of_fork, in_app_iff. intros [H | H]; [now apply Hnot|].
        exact (label_lt_irrefl (Hb _ H)).
      * exists l1, l2. rewrite labels_of_fork, !in_app_iff. auto.
    + contradiction.
    + destruct (find_label q t2) eqn:E2.
      * apply in_or_app. now right.
      * destruct IH2 as (Hnot & l1 & l2 & H1 & H2 & L1 & L2). split.
        -- rewrite labels_of_fork, in_app_iff. intros [H | H]; [|now apply Hnot].
           exact (label_lt_irrefl (IH1 _ H)).
        -- exists l1, l2. rewrite labels_of_fork, !in_app_iff. auto.
      * contradiction.
      * intros l. rewrite labels_of_fork, in_app_iff. intros [H | H]; auto.
      * split.
        -- rewrite labels_of_fork, in_app_iff. intros [H | H].
           ++ exact (label_lt_irrefl (IH1 _ H)).
           ++ exact (label_lt_irrefl (IH2 _ H)).
        -- exists la, lb. rewrite labels_of_fork, !in_app_iff. auto.
    + intros l. rewrite labels_of_fork, in_app_iff. intros [H | H]; [now apply IH1|].
      apply (label_lt_trans (IH1 _ Hla)). now apply H12.
  - intros _ _ Hright. specialize (Hright l0 (or_introl eq_refl)).
    unfold comparison_right in Hright. simpl. rewrite Hright.
    destruct (0 <? Buffer.compare q l0)%Z eqn:E.
    + apply Z.ltb_lt in E. intros l [<- | []]. unfold label_lt.
      rewrite (compare_antisym q l0). lia.
    + apply Z.ltb_ge in E. destruct (Buffer.bufEquals q l0) eqn:Eq.
      * apply bufEquals_true_iff in Eq. subst. now left.
      * apply bufEquals_false_iff in Eq. intros l [<- | []]. unfold label_lt.
        destruct (Z.eq_dec (Buffer.compare q l0) 0) as [Z0|Z0]; [|lia].
        now apply compare_eq in Z0.
Qed.

Lemma sorted_labels_unique (q : bytes) (s1 s2 : HashTree) (nodes : list HashTree) :
  StronglySorted label_lt
    (flat_map (fun n => match n with Labeled l _ => [l] | _ => [] end) nodes) ->
  In (Labeled q s1) nodes -> In (Labeled q s2) nodes -> s1 = s2.
Proof.
  induction nodes as [|n nodes IH]; simpl; [intros _ []|].
  intros Hsorted H1 H2.
  destruct (StronglySorted_app_inv _ _ Hsorted) as (Sn & Srest & Hcross).
  assert (Hin : forall s, In (Labeled q s) nodes ->
                          In q (flat_map (fun n => match n with Labeled l _ => [l] | _ => [] end)
                                         nodes))
    by (intros s Hs; apply in_flat_map; exists (Labeled q s); split; [exact Hs | now left]).
  destruct H1 as [-> | H1], H2 as [E | H2].
  - now injection E.
  - exfalso. apply (@label_lt_irrefl q). apply Hcross; [now left | now apply (Hin s2)].
  - subst n. exfalso. apply (@label_lt_irrefl q). apply Hcross; [now left | now apply (Hin s1)].
  - now apply IH.
Qed.

(** On one level of a tree from which nothing was pruned (forks of
    [Labeled] nodes, the labels in strictly increasing order), and for a
    query on which the byte comparison of [isBufferGreaterThan] is right
    against every label of the level, [find_label] is exact: a label of the
    level is found with its subtree, and any other label is absent. *)
Theorem find_label_complete (q : bytes) (t : HashTree) :
  labels_only t = true ->
  StronglySorted label_lt (labels_of t) ->
  (forall l, In l (labels_of t) -> comparison_right q l) ->
  (forall sub, In (Labeled q sub) (flatten_forks t) -> find_label q t = LFound sub) /\
  (~ In q (labels_of t) -> lookup_path [SegBuf q] t = Absent).
Proof.
  intros Hshape Hsorted Hright.
  pose proof (@find_label_classified q t Hshape Hsorted Hright) as C.
  split.
  - intros sub Hsub.
    assert (Hq : In q (labels_of t)) by (apply labels_of_in; eauto).
    destruct (find_label q t) as [sub'| | | |].
    + f_equal. exact (@sorted_labels_unique q sub' sub _ Hsorted C Hsub).
    + now destruct C.
    + contradiction.
    + destruct (label_lt_irrefl (C _ Hq)).
    + destruct (label_lt_irrefl (C _ Hq)).
  - intros Hnot. simpl. destruct (find_label q t) as [sub'| | | |]; try reflexivity.
    + exfalso. apply Hnot. apply labels_of_in. eauto.
    + contradiction.
Qed.

(** On the tree of "a" and "c": "c" is found, "b" is absent. *)
Lemma find_label_complete_example :
  find_label (TextEncoder_encode "c") tree_a_c = LFound (Leaf [x02]) /\
  lookup_path [SegBuf (TextEncoder_encode "b")] tree_a_c = Absent.
Proof.
  assert (Hsorted : StronglySorted label_lt (labels_of tree_a_c))
    by (repeat constructor).
  split.
  - apply (proj1 (@find_label_complete (TextEncoder_encode "c") tree_a_c
                    eq_refl Hsorted
                    ltac:(intros l [<- | [<- | []]]; reflexivity))).
    right. now left.
  - apply (proj2 (@find_label_complete (TextEncoder_encode "b") tree_a_c
                    eq_refl Hsorted
                    ltac:(intros l [<- | [<- | []]]; reflexivity))).
    intros [H | [H | []]]; discriminate.
Defined.

(** ** Pruned subtrees and the root hash *)

(** Replacing subtrees by [Pruned] nodes that carry their root hashes leaves
    the root hash as it was, and with it the message the signature of a
    certificate is over. *)
Theorem reconstruct_pruning (ext : Externals) (t t' : HashTree) :
  Pruning t t' ->
  reconstruct t' = reconstruct t /\
  forall sig d, signed_message (mkCert t' sig d) = signed_message (mkCert t sig d).
Proof.
  intros H.
  assert (E : reconstruct t' = reconstruct t).
  { induction H as [t|t|t1 t2 t1' t2' _ IH1 _ IH2|l sub sub' _ IH]; simpl.
    - reflexivity.
    - reflexivity.
    - now rewrite IH1, IH2.
    - now rewrite IH. }
  split; [exact E|]. intros sig d. unfold signed_message. simpl. now rewrite E.
Qed.

(** The tree of "a" and "c" with the subtree of "a" pruned. *)
Lemma reconstruct_pruning_example :
  let ext := Concrete.externals [] in
  let a := Labeled (TextEncoder_encode "a") (Leaf [x01]) in
  let c := Labeled (TextEncoder_encode "c") (Leaf [x02]) in
  reconstruct (Fork (Pruned (reconstruct a)) c) = reconstruct tree_a_c.
Proof.
  intros ext a c.
  assert (P : Pruning tree_a_c (Fork (Pruned (reconstruct a)) c))
    by exact (pruning_fork (pruning_here a) (pruning_same c)).
  destruct (@reconstruct_pruning ext tree_a_c (Fork (Pruned (reconstruct a)) c) P) as [E _].
  exact E.
Defined.

(** ** Domain separators *)

Lemma byte_val_byte_of_Z (n : Z) : byte_val (byte_of_Z n) = (n mod 256)%Z.
Proof.
  unfold byte_val, byte_of_Z.
  assert (Hr : (0 <= n mod 256 < 256)%Z) by (apply Z.mod_pos_bound; lia).
  destruct (Byte.of_N (Z.to_N (n mod 256))) as [b|] eqn:E.
  - apply Byte.to_of_N in E. rewrite E. lia.
  - apply Byte.of_N_None_iff in E. lia.
Qed.

Lemma app_same_length (A : Type) (a b x y : list A) :
  List.length a = List.length b -> a ++ x = b ++ y -> a = b /\ x = y.
Proof.
  revert b. induction a as [|h a IH]; intros [|h' b]; simpl; try discriminate.
  - auto.
  - intros Hl H. injection Hl as Hl. injection H as -> H.
    destruct (IH b Hl H) as [-> ->]. auto.
Qed.

(** The separators are prefix-free: for ASCII tags of fewer than 256
    characters, as the five tags of the code are, what follows a separator
    can be read back, so the hashed messages of two kinds of node never
    coincide unless the kinds and the contents do. *)
Theorem domain_sep_prefix_free (s1 s2 : string) (x y : bytes) :
  is_ascii s1 -> is_ascii s2 -> js_length s1 < 256 -> js_length s2 < 256 ->
  domain_sep s1 ++ x = domain_sep s2 ++ y -> s1 = s2 /\ x = y.
Proof.
  unfold is_ascii, domain_sep, Buffer.concat, js_length. simpl.
  intros A1 A2. rewrite (utf16_units_ascii A1), (utf16_units_ascii A2), !app_nil_r.
  intros L1 L2 H. injection H as Hb H.
  assert (Hl : List.length (TextEncoder_encode s1) = List.length (TextEncoder_encode s2)).
  { apply (f_equal byte_val) in Hb. rewrite !byte_val_byte_of_Z in Hb.
    rewrite !Z.mod_small in Hb by lia. lia. }
  destruct (app_same_length _ _ _ _ Hl H) as [E ->]. split; [|reflexivity].
  unfold TextEncoder_encode in E.
  rewrite <- (string_of_list_byte_of_string s1), <- (string_of_list_byte_of_string s2).
  now rewrite E.
Qed.

(** The separators of a leaf and of a labeled node: the hashed message of
    the leaf "abeled" is not that of a labeled node. *)
Lemma domain_sep_prefix_free_example :
  domain_sep "ic-hashtree-leaf" ++ TextEncoder_encode "abeled"
    <> domain_sep "ic-hashtree-labeled" ++ [].
Proof.
  intros H.
  assert (A : forall s, forallb (fun b => (byte_val b <? 128)%Z) (TextEncoder_encode s) = true ->
                        is_ascii s).
  { intros s Hs. unfold is_ascii. apply Forall_forall. intros b Hb.
    rewrite forallb_forall in Hs. apply Z.ltb_lt. now apply Hs. }
  destruct (@domain_sep_prefix_free "ic-hashtree-leaf"%string "ic-hashtree-labeled"%string _ _
              (A "ic-hashtree-leaf"%string eq_refl) (A "ic-hashtree-labeled"%string eq_refl)
              ltac:(vm_compute; lia) ltac:(vm_compute; lia) H) as [E _].
  discriminate E.
Defined.

(** ** The byte comparison of the label search *)

Lemma isBufferGreaterThan_cons (x y : byte) (a b : bytes) :
  isBufferGreaterThan (x :: a) (y :: b) =
    (byte_val y <? byte_val x)%Z || isBufferGreaterThan a b.
Proof.
  unfold isBufferGreaterThan. simpl. f_equal.
  rewrite <- seq_shift. generalize (seq 0 (List.length a)) as l.
  induction l as [|i l IH]; simpl; [reflexivity | now rewrite IH].
Qed.

Lemma isBufferGreaterThan_nil_r (a : bytes) : isBufferGreaterThan a [] = false.
Proof.
  unfold isBufferGreaterThan. generalize (seq 0 (List.length a)) as l.
  induction l as [|i l IH]; simpl; [reflexivity|].
  rewrite IH. now destruct (nth_error a i), i.
Qed.

(** [isBufferGreaterThan] compares position by position and stops at the
    end of the shorter buffer: a buffer and its extension are never greater
    than each other, it and the reverse comparison both hold as soon as the
    buffers cross, and it does find a buffer greater when the buffer is
    greater in the order of [compare] and is not the longer one. *)
Theorem isBufferGreaterThan_positional (a b s : bytes) :
  isBufferGreaterThan a (a ++ s) = false /\
  isBufferGreaterThan (a ++ s) a = false /\
  (forall x y : byte, (byte_val x < byte_val y)%Z ->
     isBufferGreaterThan (x :: y :: s) (y :: x :: s) = true /\
     isBufferGreaterThan (y :: x :: s) (x :: y :: s) = true) /\
  (List.length a <= List.length b -> (0 < Buffer.compare a b)%Z ->
   isBufferGreaterThan a b = true).
Proof.
  split; [|split; [|split]].
  - induction a as [|x a IH]; simpl; [reflexivity|].
    rewrite isBufferGreaterThan_cons, IH, Z.ltb_irrefl. reflexivity.
  - induction a as [|x a IH]; simpl; [apply isBufferGreaterThan_nil_r|].
    rewrite isBufferGreaterThan_cons, IH, Z.ltb_irrefl. reflexivity.
  - intros x y Hxy. rewrite !isBufferGreaterThan_cons.
    apply Z.ltb_lt in Hxy. rewrite Hxy. split; [|reflexivity].
    now rewrite orb_true_r.
  - revert b. induction a as [|x a IH]; intros [|y b]; simpl; try lia.
    intros Hl. rewrite isBufferGreaterThan_cons.
    destruct (byte_val x =? byte_val y)%Z eqn:E.
    + intros H. rewrite IH by (assumption || lia). apply orb_true_r.
    + intros H. apply Z.eqb_neq in E.
      assert (Hlt : (byte_val y <? byte_val x)%Z = true) by (apply Z.ltb_lt; lia).
      now rewrite Hlt.
Qed.

(** ** The clock *)

Section ClockFacts.
Context {ext : Externals}.

Lemma reads_clock_weaken (A : Type) (n n' : nat) (m : M A) :
  n <= n' -> reads_clock n m -> reads_clock n' m.
Proof. intros Hn H w. specialize (H w). lia. Qed.

Lemma reads_clock_ret (A : Type) (a : A) : reads_clock 0 (ret a).
Proof. intros w. simpl. lia. Qed.

Lemma reads_clock_throw (A : Type) (e : Exn) : reads_clock 0 (@throw A e).
Proof. intros w. simpl. lia. Qed.

Lemma reads_clock_pending (A : Type) : reads_clock 0 (@pending A).
Proof. intros w. simpl. lia. Qed.

Lemma reads_clock_lift (A : Type) (r : Result Exn A) : reads_clock 0 (lift r).
Proof. destruct r; [apply reads_clock_ret | apply reads_clock_throw]. Qed.

Lemma reads_clock_Date_now : reads_clock 1 Date_now.
Proof. intros w. simpl. lia. Qed.

Lemma reads_clock_bind (A B : Type) (n k : nat) (m : M A) (f : A -> M B) :
  reads_clock n m -> (forall a, reads_clock k (f a)) -> reads_clock (n + k) (bindM m f).
Proof.
  intros Hm Hf w. unfold bindM. specialize (Hm w).
  destruct (m w) as [[a| |] w1]; simpl in *; try lia.
  specialize (Hf a w1). lia.
Qed.

Lemma verify_body_reads_clock (n : nat) (keyM : M bytes) (this : Certificate) :
  reads_clock n keyM -> reads_clock (n + 1) (verify_body keyM this).
Proof.
  intros Hkey. unfold verify_body.
  apply reads_clock_bind; [exact Hkey|]. intros derKey.
  apply (reads_clock_bind (n := 0) (k := 1)); [apply reads_clock_lift|]. intros key.
  destruct (lookupResultToBuffer _) as [b|];
    [|apply (reads_clock_weaken (n := 0)); [lia | apply reads_clock_throw]].
  apply (reads_clock_bind (n := 1) (k := 0)).
  - destruct (negb (disableTimeVerification this)).
    + apply (reads_clock_bind (n := 1) (k := 0)); [apply reads_clock_Date_now|].
      intros now. apply (reads_clock_bind (n := 0) (k := 0)); [apply reads_clock_lift|].
      intros certTime. apply reads_clock_lift.
    + apply (reads_clock_weaken (n := 0)); [lia | apply reads_clock_ret].
  - intros _. destruct (negb _); [apply reads_clock_throw | apply reads_clock_ret].
Qed.

Lemma checkDelegationAndGetKey_reads_clock (n : nat) (v : Certificate -> M unit)
      (this : Certificate) (d : option Delegation) :
  (forall c, reads_clock n (v c)) -> reads_clock n (_checkDelegationAndGetKey v this d).
Proof.
  intros Hv. unfold _checkDelegationAndGetKey.
  destruct d as [d|]; [|apply (reads_clock_weaken (n := 0)); [lia | apply reads_clock_ret]].
  apply (reads_clock_bind (n := 0) (k := n)); [apply reads_clock_lift|]. intros inner.
  destruct (delegation (cert inner));
    [apply (reads_clock_weaken (n := 0)); [lia | apply reads_clock_throw]|].
  apply (reads_clock_weaken (n := n + (0 + 0))); [lia|].
  apply reads_clock_bind; [apply Hv|]. intros _.
  apply reads_clock_bind.
  - destruct (negb (Principal.is_management (_canisterId this))); [|apply reads_clock_ret].
    apply (reads_clock_bind (n := 0) (k := 0)); [apply reads_clock_lift|].
    intros b. destruct (negb b); [apply reads_clock_throw | apply reads_clock_ret].
  - intros _. destruct (lookupResultToBuffer _);
      [apply reads_clock_ret | apply reads_clock_throw].
Qed.

Lemma key_resolution_reads_clock (this : Certificate) (d : option Delegation) :
  reads_clock 1 (_checkDelegationAndGetKey (verify 1) this d).
Proof.
  apply checkDelegationAndGetKey_reads_clock. intros c. cbn [verify].
  apply (verify_body_reads_clock (n := 0)).
  apply checkDelegationAndGetKey_reads_clock. intros c'. apply reads_clock_pending.
Qed.

End ClockFacts.

(** ** What an accepted certificate went through *)

Section VerifySoundness.
Context {ext : Externals}.

(** What [verify] did when it returned, the key resolution apart. *)
Lemma verify_body_returned (keyM : M bytes) (this : Certificate) (w w' : World) :
  verify_body keyM this w = (Returned tt, w') ->
  exists derKey w1 key b,
    keyM w = (Returned derKey, w1) /\
    extractDER derKey = Ok key /\
    lookupResultToBuffer (lookup this [SegStr "time"]) = Some b /\
    _blsVerify this key (signature (cert this)) (signed_message (cert this)) = Ok true /\
    (if disableTimeVerification this then w' = w1
     else exists certTime,
         decodeTime b = Ok certTime /\
         check_time (_maxAgeInMinutes this) (Date_now_at (ticks w1)) certTime = Ok tt /\
         w' = mkWorld (S (ticks w1)) (creates w1) (reads w1) (awaits w1) (trace w1)).
Proof.
  unfold verify_body, signed_message. unfold bindM at 1.
  destruct (keyM w) as [[derKey| |] w1]; try discriminate.
  unfold bindM at 1. destruct (extractDER derKey) as [key|e] eqn:Ek; [|discriminate].
  cbn [lift ret].
  destruct (lookupResultToBuffer (lookup this [SegStr "time"])) as [b|] eqn:Eb;
    [|discriminate].
  intros H. exists derKey, w1, key, b.
  assert (Hsig : forall w2,
             (if negb match _blsVerify this key (signature (cert this))
                              (Buffer.concat [domain_sep "ic-state-root";
                                              reconstruct (tree (cert this))]) with
                      | Ok b0 => b0
                      | Throw _ => false
                      end
              then throw (CertificateVerificationError SignatureFailed)
              else ret tt) w2 = (Returned tt, w') ->
             _blsVerify this key (signature (cert this))
               (Buffer.concat [domain_sep "ic-state-root"; reconstruct (tree (cert this))])
             = Ok true /\ w' = w2).
  { intros w2. destruct (_blsVerify this key _ _) as [[|]|]; cbn [negb]; try discriminate.
    unfold ret. intros [= <-]. auto. }
  unfold bindM in H. destruct (disableTimeVerification this); cbn [negb] in H.
  - unfold ret at 1 in H. apply Hsig in H. destruct H as [Hs ->]. repeat split; auto.
  - unfold Date_now in H.
    destruct (decodeTime b) as [certTime|e] eqn:Edt; [|discriminate].
    cbn [lift ret] in H.
    destruct (check_time (_maxAgeInMinutes this) (Date_now_at (ticks w1)) certTime)
      as [[]|e] eqn:Ect; [|discriminate].
    cbn [lift ret] in H. apply Hsig in H. destruct H as [Hs ->].
    repeat split; auto. exists certTime. auto.
Qed.

End VerifySoundness.

Section DelegationSoundness.
Context {ext : Externals}.

(** A canister found in range is within one of the decoded ranges, both
    ends included. *)
Lemma check_canister_ranges_true (canisterId subnetId : Principal.t) (t : HashTree) :
  check_canister_ranges canisterId subnetId t = Ok true ->
  exists value ranges lo hi,
    lookup_path [SegStr "subnet"; SegBuf subnetId; SegStr "canister_ranges"] t
      = Found (VBuffer value) /\
    cbor_decode_ranges value = Ok ranges /\
    In (lo, hi) ranges /\
    (Buffer.compare lo canisterId <= 0)%Z /\ (0 <= Buffer.compare hi canisterId)%Z.
Proof.
  unfold check_canister_ranges.
  destruct (lookup_path _ t) as [[value|?]| |]; try discriminate.
  destruct (cbor_decode_ranges value) as [ranges|e] eqn:Er; [|discriminate].
  intros [= H]. apply existsb_exists in H. destruct H as [[lo hi] [Hin Hb]].
  apply andb_true_iff in Hb. destruct Hb as [Hlo Hhi]. simpl in Hlo, Hhi.
  unfold Principal.ltEq in Hlo. unfold Principal.gtEq in Hhi.
  apply Z.leb_le in Hlo. apply Z.leb_le in Hhi.
  exists value, ranges, lo, hi. auto.
Qed.

(** What the key resolution did when it returned a key for a delegation. *)
Lemma checkDelegationAndGetKey_returned (this : Certificate) (d : Delegation)
      (w w1 : World) (derKey : bytes) :
  _checkDelegationAndGetKey (verify 1) this (Some d) w = (Returned derKey, w1) ->
  exists icert,
    cbor_decode_cert (certificate d) = Ok icert /\
    delegation icert = None /\
    verify 1 (mkCertificate icert (_rootKey this) (_canisterId this) (_blsVerify this)
                            Infinity false) w = (Returned tt, w1) /\
    (Principal.is_management (_canisterId this) = false ->
     check_canister_ranges (_canisterId this) (subnet_id d) (tree icert) = Ok true) /\
    lookupResultToBuffer
      (lookup_path [SegStr "subnet"; SegBuf (subnet_id d); SegStr "public_key"] (tree icert))
      = Some derKey.
Proof.
  unfold _checkDelegationAndGetKey, createUnverified. cbn [options_certificate
    options_rootKey options_canisterId options_blsVerify options_maxAgeInMinutes
    options_disableTimeVerification].
  unfold bindM at 1.
  destruct (cbor_decode_cert (certificate d)) as [icert|e]; [|discriminate].
  cbn [lift ret cert]. destruct (delegation icert) eqn:Ed; [discriminate|].
  unfold bindM at 1.
  destruct (verify 1 _ w) as [[[]| |] w2] eqn:Ev; try discriminate.
  unfold bindM at 1. unfold lookup. cbn [cert].
  intros H. exists icert. split; [reflexivity|]. split; [exact Ed|].
  destruct (Principal.is_management (_canisterId this)); cbn [negb] in H.
  - unfold ret at 1 in H.
    destruct (lookupResultToBuffer _) as [k|]; [|discriminate].
    injection H as <- <-. repeat split; auto. discriminate.
  - unfold bindM at 1 in H.
    destruct (check_canister_ranges _ _ _) as [[|]|e]; cbn [lift ret throw negb] in H;
      try discriminate.
    destruct (lookupResultToBuffer _) as [k|]; [|discriminate].
    injection H as <- <-. repeat split; auto.
Qed.

End DelegationSoundness.

(** A certificate that [Certificate.create] returns is the decoding of the
    bytes it was given, under the root key and the canister of the options,
    with the defaults of the options (five minutes, time verification on);
    it has a time, and its signature was checked, by the function of the
    options, on the separator "ic-state-root" and the root hash of its tree,
    under a key that unwraps from DER: the root key when the certificate has
    no delegation. With time verification on, the date that [decodeTime]
    made of its time passed the time checks against the reading of the
    clock taken last before [create] returned, a reading of this
    verification, the first when there is no delegation. *)
Theorem Certificate_create_sound (ext : Externals) (options : CreateCertificateOptions)
        (w w' : World) (c : Certificate) :
  Certificate_create options w = (Returned c, w') ->
  cbor_decode_cert (options_certificate options) = Ok (cert c) /\
  _rootKey c = options_rootKey options /\
  _canisterId c = options_canisterId options /\
  (options_maxAgeInMinutes options = None -> _maxAgeInMinutes c = Minutes 5) /\
  (options_disableTimeVerification options = None -> disableTimeVerification c = false) /\
  exists derKey key b,
    (delegation (cert c) = None -> derKey = options_rootKey options) /\
    extractDER derKey = Ok key /\
    _blsVerify c key (signature (cert c)) (signed_message (cert c)) = Ok true /\
    _blsVerify c = match options_blsVerify options with
                   | Some f => f
                   | None => bls_blsVerify
                   end /\
    lookupResultToBuffer (lookup c [SegStr "time"]) = Some b /\
    (disableTimeVerification c = false ->
     exists certTime k,
       decodeTime b = Ok certTime /\
       ticks w' = S k /\ (ticks w <= k)%nat /\
       (delegation (cert c) = None -> k = ticks w) /\
       check_time (_maxAgeInMinutes c) (Date_now_at k) certTime = Ok tt).
Proof.
  unfold Certificate_create. unfold bindM at 1.
  destruct (createUnverified options) as [c0|e] eqn:Ec; [|discriminate].
  cbn [lift ret]. unfold bindM.
  destruct (Certificate_verify c0 w) as [[[]| |] w2] eqn:Ev; try discriminate.
  intros [= <- <-].
  unfold createUnverified in Ec.
  destruct (cbor_decode_cert (options_certificate options)) as [decoded|] eqn:Edec;
    [|discriminate].
  injection Ec as <-. cbn [cert _rootKey _canisterId _maxAgeInMinutes
                             disableTimeVerification _blsVerify].
  split; [reflexivity|]. split; [reflexivity|]. split; [reflexivity|].
  split; [now intros ->|]. split; [now intros ->|].
  unfold Certificate_verify in Ev. cbn [verify] in Ev.
  apply verify_body_returned in Ev.
  destruct Ev as (derKey & w1 & key & b & Hkey & Hder & Htime & Hsig & Hclock).
  cbn [cert _rootKey _canisterId _maxAgeInMinutes disableTimeVerification _blsVerify]
    in Hkey, Hsig, Hclock.
  exists derKey, key, b. split; [|split; [exact Hder|split; [exact Hsig|split;
    [reflexivity|split; [exact Htime|]]]]].
  - intros Hd. rewrite Hd in Hkey. unfold _checkDelegationAndGetKey, ret in Hkey.
    cbn [_rootKey] in Hkey. congruence.
  - intros Hen. rewrite Hen in Hclock. destruct Hclock as (certTime & Hdt & Hct & ->).
    exists certTime, (ticks w1). split; [exact Hdt|]. split; [reflexivity|].
    match type of Hkey with
    | _checkDelegationAndGetKey _ ?this ?d w = _ =>
        pose proof (key_resolution_reads_clock this d w) as Hticks
    end.
    cbn [verify] in Hticks. rewrite Hkey in Hticks. cbn [snd] in Hticks.
    split; [lia|]. split; [|exact Hct].
    intros Hd. rewrite Hd in Hkey. unfold _checkDelegationAndGetKey, ret in Hkey.
    congruence.
Qed.

(** The certificate of the poller's first read is returned by
    [Certificate.create]. *)
Lemma Certificate_create_sound_example :
  let ext := PollExample.ext in
  let options := mkOptions [x00] Concrete.rootKey PollExample.canister None None None in
  exists c w',
    Certificate_create options Concrete.world0 = (Returned c, w') /\
    extractDER (_rootKey c) = Ok (repeat x2a 96) /\
    _maxAgeInMinutes c = Minutes 5.
Proof.
  intros ext options.
  destruct (Certificate_create options Concrete.world0) as [[c| |] w'] eqn:E;
    try (vm_compute in E; discriminate E).
  exists c, w'. split; [reflexivity|].
  destruct (@Certificate_create_sound ext options Concrete.world0 w' c E)
    as (_ & Hk & _ & Hage & _).
  split; [rewrite Hk; vm_compute; reflexivity | now apply Hage].
Defined.



(** ** The clock of [verify] *)

(** [verify] reads the clock at most twice, once for the certificate and
    once for the certificate of its delegation; at most once when there is
    no delegation; and with no delegation and time verification disabled it
    leaves the world as it was, so its outcome is the same at any time. *)
Theorem verify_reads_clock (ext : Externals) (this : Certificate) :
  reads_clock 2 (Certificate_verify this) /\
  (delegation (cert this) = None -> reads_clock 1 (Certificate_verify this)) /\
  (delegation (cert this) = None -> disableTimeVerification this = true ->
   forall w w0,
     snd (Certificate_verify this w) = w /\
     fst (Certificate_verify this w) = fst (Certificate_verify this w0)).
Proof.
  unfold Certificate_verify. split; [|split].
  - cbn [verify]. apply (verify_body_reads_clock (n := 1)).
    apply checkDelegationAndGetKey_reads_clock. intros c. cbn [verify].
    apply (verify_body_reads_clock (n := 0)).
    apply checkDelegationAndGetKey_reads_clock. intros c'. apply reads_clock_pending.
  - intros Hd. rewrite (verify_without_delegation 1 _ Hd).
    apply (verify_body_reads_clock (n := 0)). apply reads_clock_ret.
  - intros Hd Hoff w w0. rewrite (verify_without_delegation 1 _ Hd).
    cbv [verify_body bindM ret lift throw]. rewrite Hoff. cbn [negb].
    destruct (extractDER (_rootKey this)) as [key|e]; [|auto].
    destruct (lookupResultToBuffer _) as [b|]; [|auto].
    destruct (_blsVerify this key _ _) as [[|]|]; auto.
Qed.

(** ** What the poller's outcomes tell *)

Section PollOutcomes.
Context {ext : Externals}.

Lemma Certificate_create_returned (options : CreateCertificateOptions)
      (w w' : World) (c : Certificate) :
  Certificate_create options w = (Returned c, w') ->
  cbor_decode_cert (options_certificate options) = Ok (cert c) /\
  _rootKey c = options_rootKey options /\
  _canisterId c = options_canisterId options /\
  Certificate_verify c w = (Returned tt, w').
Proof.
  unfold Certificate_create. unfold bindM at 1.
  destruct (createUnverified options) as [c0|e] eqn:Ec; [|discriminate].
  cbn [lift ret]. unfold bindM.
  destruct (Certificate_verify c0 w) as [[[]| |] w2] eqn:Ev; try discriminate.
  intros [= <- <-]. unfold createUnverified in Ec.
  destruct (cbor_decode_cert (options_certificate options)) as [decoded|]; [|discriminate].
  injection Ec as <-. auto.
Qed.

Lemma Certificate_create_settles (options : CreateCertificateOptions) :
  settles (Certificate_create options).
Proof.
  unfold Certificate_create.
  apply settles_bind; [apply settles_lift|]. intros c.
  apply settles_bind; [|intros; apply settles_ret].
  unfold Certificate_verify. cbn [verify].
  apply verify_body_settles, checkDelegationAndGetKey_settles.
Qed.

Variable agent : Agent.
Variable canisterId : Principal.t.
Variable requestId : bytes.
Variable strategy : PollStrategy.
Variable blsVerify : option VerifyFunc.

(** What one iteration did when it got to the [switch]. *)
Lemma observe_returned (request : option Request) (w w1 : World)
      (cur : option Request) (c : Certificate) (status : string) :
  observe agent canisterId requestId blsVerify request w
    = (Returned (cur, c, status), w1) ->
  exists rk certificate w0,
    rootKey agent = Some rk /\
    readState agent (reads w) canisterId [request_status_path requestId] cur
      = Ok certificate /\
    Certificate_create (mkOptions certificate rk canisterId blsVerify None None) w0
      = (Returned c, w1) /\
    status = status_of requestId c /\
    reads w1 = S (reads w).
Proof.
  unfold observe. set (path := request_status_path requestId).
  assert (Hread : forall cur0 w0,
             reads w0 = reads w ->
             bindM (call_readState agent canisterId [path] cur0)
                   (fun certificate =>
                      match rootKey agent with
                      | None => throw RootKeyNotInitialized
                      | Some agent_rootKey =>
                          bindM (Certificate_create
                                   (mkOptions certificate agent_rootKey canisterId
                                              blsVerify None None))
                                (fun cert => ret (cur0, cert, status_of requestId cert))
                      end) w0 = (Returned (cur, c, status), w1) ->
             exists rk certificate w2,
               rootKey agent = Some rk /\
               readState agent (reads w) canisterId [path] cur = Ok certificate /\
               Certificate_create (mkOptions certificate rk canisterId blsVerify None None) w2
                 = (Returned c, w1) /\
               status = status_of requestId c /\
               reads w1 = S (reads w)).
  { intros cur0 w0 Hr. unfold bindM at 1. unfold call_readState. rewrite Hr.
    destruct (readState agent (reads w) canisterId [path] cur0) as [certificate|e] eqn:Er;
      [|discriminate].
    destruct (rootKey agent) as [rk|]; [|discriminate].
    unfold bindM.
    match goal with
    | |- context [Certificate_create ?o ?w2] =>
        pose proof (Certificate_create_quiet o w2) as Q;
        destruct (Certificate_create o w2) as [[c0| |] w3] eqn:Ec; try discriminate;
        intros [= <- <- <- <-]; exists rk, certificate, w2
    end.
    destruct Q as (_ & Qr & _). simpl in Qr.
    repeat split; auto. }
  unfold bindM at 1. destruct request as [r|].
  - simpl. apply Hread. reflexivity.
  - destruct (createReadStateRequest agent) as [create|].
    + unfold bindM at 1. unfold call_createReadStateRequest.
      destruct (create (creates w) [path]) as [r|e]; [|discriminate].
      simpl. apply Hread. reflexivity.
    + simpl. apply Hread. reflexivity.
Qed.

Lemma observe_settles (request : option Request) (w : World) :
  fst (observe agent canisterId requestId blsVerify request w) <> Pending.
Proof.
  assert (S : settles (observe agent canisterId requestId blsVerify request)).
  { unfold observe. apply settles_bind.
    - destruct request; [apply settles_ret|].
      destruct (createReadStateRequest agent) as [create|]; [|apply settles_ret].
      apply settles_bind; [|intros; apply settles_ret].
      intros w0. unfold call_createReadStateRequest. now destruct (create _ _).
    - intros cur. apply settles_bind.
      + intros w0. unfold call_readState. now destruct (readState _ _ _ _ _).
      + intros certificate. destruct (rootKey agent); [|apply settles_throw].
        apply settles_bind; [apply Certificate_create_settles|].
        intros; apply settles_ret. }
  apply S.
Qed.

End PollOutcomes.

(** What [pollForResponse] returns is a certificate the agent's
    [readState] delivered for the canister and the path of the request,
    decoded and verified under the agent's root key, whose status for the
    request is "replied", together with the bytes it holds at the reply. *)
Theorem pollForResponse_returned (ext : Externals) (agent : Agent)
        (canisterId : Principal.t) (requestId : bytes) (strategy : PollStrategy)
        (blsVerify : option VerifyFunc) (fuel : nat) (request : option Request)
        (w w' : World) (c : Certificate) (reply : option bytes) :
  pollForResponse fuel agent canisterId requestId strategy request blsVerify w
    = (Returned (c, reply), w') ->
  status_of requestId c = RequestStatusResponseStatus.Replied /\
  reply = lookupResultToBuffer (lookup c (request_status_path requestId ++ [SegStr "reply"])) /\
  rootKey agent = Some (_rootKey c) /\
  _canisterId c = canisterId /\
  exists k cur certificate w0,
    readState agent k canisterId [request_status_path requestId] cur = Ok certificate /\
    cbor_decode_cert certificate = Ok (cert c) /\
    Certificate_verify c w0 = (Returned tt, w').
Proof.
  revert request w. induction fuel as [|fuel IH]; intros request w H; [discriminate H|].
  rewrite pollForResponse_step in H.
  destruct (observe agent canisterId requestId blsVerify request w)
    as [[[[cur c0] status]| |] w1] eqn:Eo; try discriminate.
  apply observe_returned in Eo.
  destruct Eo as (rk & certificate & w0 & Hrk & Hread & Hcreate & Hst & _).
  unfold dispatch in H.
  destruct (String.eqb status RequestStatusResponseStatus.Replied) eqn:E1.
  - unfold ret in H. injection H as <- <- <-. apply String.eqb_eq in E1.
    apply Certificate_create_returned in Hcreate.
    destruct Hcreate as (Hdec & Hkey & Hcan & Hver). simpl in Hdec, Hkey, Hcan.
    split; [congruence|]. split; [reflexivity|]. split; [congruence|].
    split; [exact Hcan|]. exists (reads w), cur, certificate, w0. auto.
  - destruct (non_terminal status).
    + unfold bindM in H.
      destruct (call_strategy strategy canisterId requestId status w1) as [[[]| |] w2];
        try discriminate.
      exact (IH _ _ H).
    + destruct (String.eqb status RequestStatusResponseStatus.Rejected); [discriminate|].
      destruct (String.eqb status RequestStatusResponseStatus.Done); discriminate.
Qed.

(** The poll of the scenario returns a certificate whose status is
    "replied". *)
Lemma pollForResponse_returned_example :
  let ext := PollExample.ext in
  status_of PollExample.RID (PollExample.verified 2) = "replied"%string /\
  rootKey PollExample.agent = Some (_rootKey (PollExample.verified 2)).
Proof.
  intros ext.
  assert (E : pollForResponse 3 PollExample.agent PollExample.canister PollExample.RID
                PollExample.strategy None None Concrete.world0
              = (Returned (PollExample.verified 2, Some [xaa; xbb]), PollExample.after_read 3))
    by (vm_compute; reflexivity).
  destruct (@pollForResponse_returned ext _ _ _ _ _ _ _ _ _ _ _ E) as (Hs & _ & Hk & _).
  split; [exact Hs | exact Hk].
Defined.

(** A poll that has not settled after [fuel] iterations has read the state
    [fuel] times and awaited the strategy [fuel] times, each time on a
    status of "received", "unknown" or "processing": in no other way does
    [pollForResponse] go on. *)
Theorem pollForResponse_pending (ext : Externals) (agent : Agent)
        (canisterId : Principal.t) (requestId : bytes) (strategy : PollStrategy)
        (blsVerify : option VerifyFunc) (fuel : nat) (request : option Request)
        (w w' : World) :
  pollForResponse fuel agent canisterId requestId strategy request blsVerify w
    = (Pending, w') ->
  reads w' = reads w + fuel /\
  awaits w' = awaits w + fuel /\
  exists events,
    trace w' = trace w ++ events /\
    List.length (statuses_awaited events) = fuel /\
    Forall (fun status => non_terminal status = true) (statuses_awaited events).
Proof.
  revert request w. induction fuel as [|fuel IH]; intros request w H.
  - injection H as <-. split; [lia|]. split; [lia|]. exists [].
    rewrite app_nil_r. repeat split. constructor.
  - rewrite pollForResponse_step in H.
    pose proof (observe_settles agent canisterId requestId blsVerify request w) as Hs.
    destruct (observe agent canisterId requestId blsVerify request w)
      as [[[[cur c0] status]| |] w1] eqn:Eo; try discriminate; [|now elim Hs].
    pose proof Eo as Hf. apply observe_facts in Hf.
    destruct Hf as (_ & Ha & _ & events & Ht & _ & Hnone & _).
    apply observe_returned in Eo. destruct Eo as (_ & _ & _ & _ & _ & _ & _ & Hr).
    unfold dispatch in H.
    destruct (String.eqb status RequestStatusResponseStatus.Replied); [discriminate|].
    destruct (non_terminal status) eqn:Hnt.
    + unfold bindM in H. unfold call_strategy in H.
      destruct (strategy (awaits w1) canisterId requestId status); [|discriminate].
      apply IH in H. simpl in H.
      destruct H as (Hr' & Ha' & events' & Ht' & Hl' & Hall').
      split; [lia|]. split; [lia|].
      exists (events ++ [Awaited status] ++ events').
      split; [rewrite Ht', Ht; now rewrite <- !app_assoc|].
      unfold statuses_awaited in *. rewrite !flat_map_app. rewrite Hnone. simpl.
      split; [now rewrite Hl'|]. constructor; assumption.
    + destruct (String.eqb status RequestStatusResponseStatus.Rejected); [discriminate|].
      destruct (String.eqb status RequestStatusResponseStatus.Done); discriminate.
Qed.

(** After one iteration the poll of the scenario has read once and waited
    once, on "processing". *)
Lemma pollForResponse_pending_example :
  let ext := PollExample.ext in
  pollForResponse 1 PollExample.agent PollExample.canister PollExample.RID
                  PollExample.strategy None None Concrete.world0
    = (Pending, PollExample.after_await 1) /\
  awaits (PollExample.after_await 1) = 1.
Proof.
  intros ext.
  assert (E : pollForResponse 1 PollExample.agent PollExample.canister PollExample.RID
                PollExample.strategy None None Concrete.world0
              = (Pending, PollExample.after_await 1)) by (vm_compute; reflexivity).
  split; [exact E|].
  destruct (@pollForResponse_pending ext _ _ _ _ _ _ _ _ _ E) as (_ & Ha & _).
  exact Ha.
Defined.

(** With an agent whose root key is not there, [pollForResponse] never
    returns and never waits: it throws, and not before it has read the
    state; when the request is there (or cannot be created) and the read
    succeeds, what it throws is the error of the missing root key, the read
    having been made. *)
Theorem pollForResponse_without_rootKey (ext : Externals) (agent : Agent)
        (canisterId : Principal.t) (requestId : bytes) (strategy : PollStrategy)
        (blsVerify : option VerifyFunc) (fuel : nat) (request : option Request)
        (w : World) :
  rootKey agent = None ->
  let result :=
    pollForResponse (S fuel) agent canisterId requestId strategy request blsVerify w in
  (exists e, fst result = Thrown e) /\
  awaits (snd result) = awaits w /\
  ticks (snd result) = ticks w /\
  (settled agent request ->
   forall certificate,
     readState agent (reads w) canisterId [request_status_path requestId] request
       = Ok certificate ->
     result = (Thrown RootKeyNotInitialized,
               mkWorld (ticks w) (creates w) (S (reads w)) (awaits w)
                       (trace w ++ [ReadState canisterId request]))).
Proof.
  intros Hkey result. subst result. cbn [pollForResponse]. rewrite Hkey.
  fold (request_status_path requestId).
  unfold bindM, call_createReadStateRequest, call_readState, ret, throw, settled.
  destruct request as [r|]; [|destruct (createReadStateRequest agent) as [create|]].
  - cbn [reads]. destruct (readState agent (reads w) _ _ _) as [certificate|e] eqn:Er;
      simpl; (split; [eauto|]); (split; [reflexivity|]); (split; [reflexivity|]);
      intros _ certificate' [=]. reflexivity.
  - destruct (create (creates w) _) as [r|e].
    + simpl. destruct (readState agent (reads w) _ _ _) as [certificate|e] eqn:Er;
        simpl; (split; [eauto|]); (split; [reflexivity|]); (split; [reflexivity|]);
        intros [Hs | Hs]; congruence.
    + simpl. split; [eauto|]. split; [reflexivity|]. split; [reflexivity|].
      intros [Hs | Hs]; congruence.
  - cbn [reads]. destruct (readState agent (reads w) _ _ _) as [certificate|e] eqn:Er;
      simpl; (split; [eauto|]); (split; [reflexivity|]); (split; [reflexivity|]);
      intros _ certificate' [=]. reflexivity.
Qed.

(** The agent of the scenario without its root key: the poll throws after
    the first read. *)
Lemma pollForResponse_without_rootKey_example :
  let ext := PollExample.ext in
  pollForResponse 3 PollFailureExample.agent_without_key PollExample.canister
                  PollExample.RID PollExample.strategy PollExample.created None
                  Concrete.world0
    = (Thrown RootKeyNotInitialized,
       mkWorld 0 0 1 0 [ReadState PollExample.canister PollExample.created]).
Proof.
  intros ext.
  pose proof (@pollForResponse_without_rootKey ext PollFailureExample.agent_without_key
                PollExample.canister PollExample.RID PollExample.strategy None 2
                PollExample.created Concrete.world0 eq_refl) as T.
  cbv zeta in T. destruct T as (_ & _ & _ & H).
  assert (Hs : settled PollFailureExample.agent_without_key PollExample.created)
    by (left; discriminate).
  assert (Hr : readState PollFailureExample.agent_without_key (reads Concrete.world0)
                 PollExample.canister [request_status_path PollExample.RID]
                 PollExample.created = Ok [x00]) by (vm_compute; reflexivity).
  exact (H Hs [x00] Hr).
Defined.

(** The two ways out of [pollForResponse] that its [switch] does not name.
    When the strategy throws, the poll throws what it threw, the state not
    being read again. When the certificate holds a status text that is none
    of the six, the poll throws the error it calls unreachable, without
    having waited on that status. *)
Theorem pollForResponse_other_exits (ext : Externals) (agent : Agent)
        (canisterId : Principal.t) (requestId : bytes) (strategy : PollStrategy)
        (blsVerify : option VerifyFunc)
        (n : nat) (request : option Request) (w w' : World)
        (cert : Certificate) (status : string) :
  Observed agent canisterId requestId strategy blsVerify n request w cert status w' ->
  forall fuel, n < fuel ->
  let result :=
    pollForResponse fuel agent canisterId requestId strategy request blsVerify w in
  (non_terminal status = true ->
   forall e, strategy (awaits w') canisterId requestId status = Throw e ->
   result = (Thrown e,
             mkWorld (ticks w') (creates w') (reads w') (S (awaits w'))
                     (trace w' ++ [Awaited status]))) /\
  (non_terminal status = false ->
   status <> RequestStatusResponseStatus.Replied ->
   status <> RequestStatusResponseStatus.Rejected ->
   status <> RequestStatusResponseStatus.Done ->
   result = (Thrown Unreachable, w')).
Proof.
  intros Hrun. induction Hrun as
      [request w cur cert status w' Hobs
      |n request w cur cert status w1 w2 cert' status' w' Hobs Hnt Hstrat Hrun IH];
    intros fuel Hfuel result; subst result;
    (destruct fuel as [|fuel]; [lia|]); rewrite pollForResponse_step, Hobs.
  - unfold dispatch. split.
    + intros Hnt e He. rewrite (@non_terminal_inv status Hnt), Hnt.
      unfold bindM, call_strategy. now rewrite He.
    + intros Hnt H1 H2 H3. rewrite Hnt.
      apply String.eqb_neq in H1, H2, H3. now rewrite H1, H2, H3.
  - unfold dispatch. rewrite (@non_terminal_inv status Hnt), Hnt.
    unfold bindM. rewrite Hstrat. exact (IH fuel ltac:(lia)).
Qed.

(** A certificate that says "paused": the poll throws the unreachable
    error after the first read. *)
Lemma pollForResponse_other_exits_example :
  pollForResponse (ext := Concrete.externals PollFailureExample.table_paused) 1
                  PollExample.agent PollExample.canister PollExample.RID
                  PollExample.strategy None None Concrete.world0
    = (Thrown Unreachable, PollExample.after_read 1).
Proof.
  assert (Hrun : Observed (ext := Concrete.externals PollFailureExample.table_paused)
                          PollExample.agent PollExample.canister
                          PollExample.RID PollExample.strategy None 0 None Concrete.world0
                          PollFailureExample.paused "paused" (PollExample.after_read 1)).
  { apply (@observed_now (Concrete.externals PollFailureExample.table_paused) _ _ _ _ _ None
             Concrete.world0 PollExample.created);
      vm_compute; reflexivity. }
  pose proof (@pollForResponse_other_exits (Concrete.externals PollFailureExample.table_paused)
                _ _ _ _ _ _ _ _ _ _ _ Hrun 1 (le_n 1)) as T.
  cbv zeta in T. destruct T as (_ & H).
  apply H; [reflexivity | discriminate | discriminate | discriminate].
Defined.

(** ** What [hashValue] yields *)

(** Whatever the value, what [hashValue] returns is a SHA-256 digest: each
    of its branches ends in [hash], and an unwrapped tag or a [toHash]
    projection is hashed in turn. *)
Theorem hashValue_digest (ext : Externals) (value : JsValue) (h : bytes) :
  hashValue value = Ok h -> exists data, h = sha256 data.
Proof.
  revert value h. fix IH 1. intros value h.
  destruct value as [| | |n|n|s|d| |o]; simpl; try discriminate.
  - destruct (lebEncode_number n) as [b|e]; simpl; [|discriminate].
    intros [= <-]. now exists b.
  - destruct (lebEncode_bigint n) as [b|e]; simpl; [|discriminate].
    intros [= <-]. now exists b.
  - intros [= <-]. now exists (TextEncoder_encode s).
  - destruct o as [tv bb ae pb th oe]; simpl.
    destruct tv as [inner|]; [apply IH|].
    destruct bb as [b|]; [intros [= <-]; now exists b|].
    destruct ae as [elements|].
    { destruct (mapR hashValue elements) as [vals|e]; simpl; [|discriminate].
      intros [= <-]. now exists (Buffer.concat vals). }
    destruct pb as [p|]; [intros [= <-]; now exists p|].
    destruct th as [projection|]; [apply IH|].
    unfold hashOfMap_body. destruct (filter_mapR _ _ oe) as [hashed|e]; simpl; [|discriminate].
    intros [= <-]. eexists. reflexivity.
Qed.

(** The request id of the scenario is a digest, of 32 bytes under the
    real SHA-256. *)
Lemma hashValue_digest_example :
  let ext := Concrete.externals [] in
  exists h, hashValue (record golden_request) = Ok h /\ List.length h = 32.
Proof.
  intros ext.
  destruct (hashValue (record golden_request)) as [h|e] eqn:E;
    [|vm_compute in E; discriminate E].
  exists h. split; [reflexivity|].
  destruct (@hashValue_digest ext (record golden_request) h E) as [data ->].
  apply sha256_length.
Defined.

(** [hashValue] does not tell the types apart: a text and the buffer of
    its UTF-8 bytes, a number and the big integer of the same value, a
    buffer and a principal of the same bytes hash alike, and the empty
    text, the empty buffer, the empty array and the object without entries
    all hash to the digest of nothing. An entry that is [undefined] counts
    for nothing in [hashOfMap], wherever it stands. *)
Theorem hashValue_identifies (ext : Externals) (s : string) (n : Z) (b : bytes)
        (entries m1 m2 : list (string * JsValue)) (k : string) :
  hashValue (JsString s)
    = hashValue (JsObject (mkObject None (Some (TextEncoder_encode s)) None None None
                                    entries)) /\
  hashValue (JsNumber (Integral n)) = hashValue (JsBigInt n) /\
  hashValue (JsObject (mkObject None (Some b) None None None entries))
    = hashValue (JsObject (mkObject None None None (Some b) None entries)) /\
  hashValue (JsString "") = Ok (sha256 []) /\
  hashValue (JsObject (mkObject None None (Some []) None None entries)) = Ok (sha256 []) /\
  hashValue (record []) = Ok (sha256 []) /\
  hashOfMap (m1 ++ (k, JsUndefined) :: m2) = hashOfMap (m1 ++ m2).
Proof.
  repeat (split; [reflexivity|]).
  rewrite !hashOfMap_eq. unfold defined_entries. rewrite !filter_app. reflexivity.
Qed.

(** ** Lookups in a pruned tree *)

Section PrunedLookups.
Context {ext : Externals}.

Lemma pruning_labeled_in (t t' : HashTree) (l : bytes) (sub' : HashTree) :
  Pruning t t' -> In (Labeled l sub') (flatten_forks t') ->
  exists sub, In (Labeled l sub) (flatten_forks t) /\ Pruning sub sub'.
Proof.
  intros P. induction P as [t|t|t1 t2 t1' t2' _ IH1 _ IH2|l0 sub0 sub0' P0 _]; simpl.
  - intros [H | []]. discriminate H.
  - intros H. exists sub'. split; [exact H | apply pruning_same].
  - rewrite in_app_iff. intros [H | H].
    + destruct (IH1 H) as (sub & Hin & Hp). exists sub. rewrite in_app_iff. auto.
    + destruct (IH2 H) as (sub & Hin & Hp). exists sub. rewrite in_app_iff. auto.
  - intros [H | []]. injection H as <- <-. exists sub0. split; [now left | exact P0].
Qed.

Lemma pruning_resolves (labels : list bytes) (t t' s' : HashTree) :
  Pruning t t' -> resolves labels t' s' ->
  exists s, resolves labels t s /\ Pruning s s'.
Proof.
  revert t t'. induction labels as [|l rest IH]; intros t t' P; simpl.
  - intros ->. exists t. auto.
  - intros (sub' & Hin & Hres).
    destruct (@pruning_labeled_in t t' l sub' P Hin) as (sub & Hin0 & P0).
    destruct (IH sub sub' P0 Hres) as (s & Hs & Ps). exists s. eauto.
Qed.

End PrunedLookups.

(** Pruning fabricates nothing: when [lookup_path] finds something in a
    tree with pruned subtrees, the same path leads, in the full tree, to a
    node of which the node reached in the pruned tree is a pruning. A
    subtree that is found is that pruning; and when a buffer is found, the
    path ends in both trees at a leaf, the same in both, contents
    included. *)
Theorem lookup_path_after_pruning (ext : Externals) (t t' : HashTree)
        (path : list PathSegment) (v : LookupValue) :
  Pruning t t' ->
  lookup_path path t' = Found v ->
  exists s s',
    resolves (map segment_label path) t' s' /\
    resolves (map segment_label path) t s /\
    Pruning s s' /\
    match v with
    | VTree found => found = s'
    | VBuffer _ => exists c, s' = Leaf c /\ s = Leaf c
    end.
Proof.
  intros P Hv. destruct (lookup_path_ends path t' Hv) as (s' & Hres' & Hs').
  destruct (@pruning_resolves ext (map segment_label path) t t' s' P Hres')
    as (s & Hs & Ps).
  exists s, s'. split; [exact Hres'|]. split; [exact Hs|]. split; [exact Ps|].
  destruct v as [b|found].
  - destruct Hs' as [c ->]. exists c. split; [reflexivity|]. inversion Ps. reflexivity.
  - apply Hs'.
Qed.

(** In the tree of "a" and "c" with the subtree of "a" pruned, ["c"] ends
    at a leaf, which is the leaf of the full tree. *)
Lemma lookup_path_after_pruning_example :
  let ext := Concrete.externals [] in
  let a := Labeled (TextEncoder_encode "a") (Leaf [x01]) in
  let c := Labeled (TextEncoder_encode "c") (Leaf [x02]) in
  exists s, resolves [TextEncoder_encode "c"] tree_a_c s /\ exists contents, s = Leaf contents.
Proof.
  intros ext a c.
  assert (P : Pruning tree_a_c (Fork (Pruned (reconstruct a)) c))
    by exact (pruning_fork (pruning_here a) (pruning_same c)).
  assert (E : lookup_path [SegStr "c"] (Fork (Pruned (reconstruct a)) c)
              = Found (VBuffer [x02])) by reflexivity.
  destruct (@lookup_path_after_pruning ext tree_a_c (Fork (Pruned (reconstruct a)) c)
              [SegStr "c"] (VBuffer [x02]) P E) as (s & s' & _ & Hs & _ & (k & _ & Hk)).
  exists s. split; [exact Hs | exists k; exact Hk].
Defined.
